(** * asio-grpc: GrpcContext and the high-level client senders

    A shallow embedding of

    - [src/agrpc/detail/grpc_context_definition.hpp]
      (construction, destruction, [stop], [work_started], [work_finished],
      the loop functions of [run] / [poll] and their completion-queue
      variants), and
    - [src/agrpc/detail/high_level_client_sender.hpp]
      ([RPCAccess::client_initiate_finish], the cancellation function and
      the [initiate] / [done] members of the sender implementations).

    The C++ code is imperative: member functions mutate the context, the
    call wrapper, the heap and the completion queue.  It is written here in
    a small state monad over a [World] that holds those objects, so that a
    definition reads like the member function it embeds.  Next to the
    objects the world carries a [history]: the list of mutating calls made
    so far, in program order.  No function reads the history; it exists so
    that statements about the order of calls can be written down. *)

From Stdlib Require Import ZArith List Bool Lia.
Import ListNotations.
Open Scope Z_scope.

(** ** Plain data *)

(** [new ListablePoolResource()] yields an address; an arena is identified
    by it. *)
Definition Resource := nat.

(** A completion-queue tag.  The senders register either the operation
    itself ([self], [operation]) or one of its numbered sub-states
    ([self<k>]); the pair is (operation, sub-state), with sub-state 0 for
    the plain forms. *)
Definition Tag := (nat * nat)%type.

(** [const Request&] / [Response&]: the message objects are only passed
    through to gRPC, they are identified by a number. *)
Definition Message := Z.

(** [grpc::Status]: the code ([grpc::StatusCode], OK = 0) is all that is
    looked at. *)
Record Status := mkStatus { error_code : Z }.

Definition Status_ok (s : Status) : bool := error_code s =? 0.

(** [grpc::WriteOptions]: a flag word and the last-message marker that
    [set_last_message()] sets and [is_last_message()] reads. *)
Record WriteOptions := mkWriteOptions {
  flags_ : Z;
  last_message_ : bool
}.

Definition is_last_message (o : WriteOptions) : bool := last_message_ o.

(** What a completion handler is called with: [on_done(ok)],
    [on_done(rpc)], [on_done(status)]. *)
Inductive Outcome :=
| Out_bool (b : bool)
| Out_rpc
| Out_status (s : Status).

(** The mutating calls that the embedded functions make. *)
Inductive Action :=
(* GrpcContext and what it owns *)
| Call_stop
| Stopped_exchange (old : bool)
| Try_mark_active (transitioned : bool)
| Trigger_work_alarm
| Call_work_started
| Fetch_add (old : Z)
| Call_work_finished
| Fetch_sub (old : Z)
| Shutdown_store
| CQ_Shutdown
| CQ_discard (t : Tag)
| Asio_shutdown
| Asio_destroy
| New_resource (r : Resource)
| Delete_resource (r : Resource)
(* the call wrapper, the responder and the client context *)
| Set_finished
| Set_writes_done
| StartCall (t : option Tag)
| Finish (t : Tag)
| Write (req : Message) (o : WriteOptions) (t : Tag)
| WritesDone (t : Tag)
| Read (resp : Message) (t : Tag)
| ReadInitialMetadata (t : Tag)
| TryCancel
| On_done (v : Outcome).

(** [std::atomic_long]: 64 bits, two's complement; arithmetic on it wraps. *)
Definition long_bits : Z := 64.

Definition wrap_long (z : Z) : Z :=
  (z + 2 ^ (long_bits - 1)) mod 2 ^ long_bits - 2 ^ (long_bits - 1).

Definition LONG_MAX : Z := 2 ^ (long_bits - 1) - 1.
Definition LONG_MIN : Z := - 2 ^ (long_bits - 1).

(** ** The objects *)

(** [grpc::CompletionQueue] as the context uses it: whether [Shutdown()]
    was called, and the tags registered with it whose events have not been
    taken off the queue yet. *)
Record CompletionQueue := mkCompletionQueue {
  cq_shutdown : bool;
  cq_pending : list Tag
}.

(** The data members of [agrpc::GrpcContext], under the names that
    grpc_context_definition.hpp uses (the grpc_context.hpp under src/ is of
    an older revision: it spells them without the trailing underscore and
    has neither [multithreaded_] nor [memory_resources_]).
    [work_alarm_] counts how often the alarm was set;
    [remote_work_queue_] is reduced to the active marker of the atomic
    queue, the only part [stop] touches. *)
Record GrpcContext := mkGrpcContext {
  work_alarm_ : nat;
  outstanding_work_ : Z;
  stopped_ : bool;
  shutdown_ : bool;
  multithreaded_ : bool;
  completion_queue_ : CompletionQueue;
  memory_resources_ : list Resource;
  remote_work_queue_ : bool
}.

(** Modelled from the spec: the "RPC state wrapper" ([agrpc::RPC] and its
    bases are absent), a "small state machine per call (has call started /
    writes-done issued / finished)", with the status that Finish fills
    in. *)
Record RPC := mkRPC {
  finished_ : bool;
  writes_done_ : bool;
  status_ : Status
}.

(** The heap as far as [new] and [delete] of arenas go. *)
Record Heap := mkHeap {
  next_address : nat;
  live : list nat
}.

Record World := mkWorld {
  heap : Heap;
  grpc_context : GrpcContext;
  rpc : RPC;
  history : list Action
}.

(** ** The state monad *)

Definition M (A : Type) : Type := World -> A * World.

Definition ret {A : Type} (a : A) : M A := fun w => (a, w).

Definition bind {A B : Type} (m : M A) (k : A -> M B) : M B :=
  fun w => let (a, w') := m w in k a w'.

Declare Scope m_scope.
Delimit Scope m_scope with M.
Notation "x <- m ;; k" := (bind m (fun x => k))
  (at level 61, m at next level, right associativity) : m_scope.
Notation "m ;; k" := (bind m (fun _ => k))
  (at level 61, right associativity) : m_scope.
Open Scope m_scope.

(** The world a computation ends in, and the value it returns. *)
Definition exec {A : Type} (m : M A) (w : World) : World := snd (m w).
Definition eval {A : Type} (m : M A) (w : World) : A := fst (m w).

Definition when (b : bool) (m : M unit) : M unit :=
  if b then m else ret tt.

Definition log (a : Action) : M unit :=
  fun w => (tt, mkWorld (heap w) (grpc_context w) (rpc w) (history w ++ [a])).

Definition get_context : M GrpcContext := fun w => (grpc_context w, w).

Definition put_context (g : GrpcContext) : M unit :=
  fun w => (tt, mkWorld (heap w) g (rpc w) (history w)).

Definition get_rpc : M RPC := fun w => (rpc w, w).

Definition put_rpc (r : RPC) : M unit :=
  fun w => (tt, mkWorld (heap w) (grpc_context w) r (history w)).

Definition get_heap : M Heap := fun w => (heap w, w).

Definition put_heap (h : Heap) : M unit :=
  fun w => (tt, mkWorld h (grpc_context w) (rpc w) (history w)).

(** Field updates of the context. *)
Definition with_work_alarm (n : nat) (g : GrpcContext) : GrpcContext :=
  mkGrpcContext n (outstanding_work_ g) (stopped_ g) (shutdown_ g)
    (multithreaded_ g) (completion_queue_ g) (memory_resources_ g)
    (remote_work_queue_ g).

Definition with_outstanding_work (z : Z) (g : GrpcContext) : GrpcContext :=
  mkGrpcContext (work_alarm_ g) z (stopped_ g) (shutdown_ g)
    (multithreaded_ g) (completion_queue_ g) (memory_resources_ g)
    (remote_work_queue_ g).

Definition with_stopped (b : bool) (g : GrpcContext) : GrpcContext :=
  mkGrpcContext (work_alarm_ g) (outstanding_work_ g) b (shutdown_ g)
    (multithreaded_ g) (completion_queue_ g) (memory_resources_ g)
    (remote_work_queue_ g).

Definition with_shutdown (b : bool) (g : GrpcContext) : GrpcContext :=
  mkGrpcContext (work_alarm_ g) (outstanding_work_ g) (stopped_ g) b
    (multithreaded_ g) (completion_queue_ g) (memory_resources_ g)
    (remote_work_queue_ g).

Definition with_completion_queue (q : CompletionQueue) (g : GrpcContext)
  : GrpcContext :=
  mkGrpcContext (work_alarm_ g) (outstanding_work_ g) (stopped_ g)
    (shutdown_ g) (multithreaded_ g) q (memory_resources_ g)
    (remote_work_queue_ g).

Definition with_memory_resources (l : list Resource) (g : GrpcContext)
  : GrpcContext :=
  mkGrpcContext (work_alarm_ g) (outstanding_work_ g) (stopped_ g)
    (shutdown_ g) (multithreaded_ g) (completion_queue_ g) l
    (remote_work_queue_ g).

Definition with_remote_work_queue (b : bool) (g : GrpcContext) : GrpcContext :=
  mkGrpcContext (work_alarm_ g) (outstanding_work_ g) (stopped_ g)
    (shutdown_ g) (multithreaded_ g) (completion_queue_ g)
    (memory_resources_ g) b.

Definition modify_context (f : GrpcContext -> GrpcContext) : M unit :=
  g <- get_context ;; put_context (f g).

(** ** Atomic members and absent helpers of the context *)

(** [stopped_.exchange(true, relaxed)]: stores and returns the old value. *)
Definition stopped_exchange (b : bool) : M bool :=
  g <- get_context ;;
  log (Stopped_exchange (stopped_ g)) ;;
  put_context (with_stopped b g) ;;
  ret (stopped_ g).

(** [outstanding_work_.fetch_add(1, relaxed)]. *)
Definition outstanding_work_fetch_add (d : Z) : M Z :=
  g <- get_context ;;
  log (Fetch_add (outstanding_work_ g)) ;;
  put_context (with_outstanding_work (wrap_long (outstanding_work_ g + d)) g) ;;
  ret (outstanding_work_ g).

(** [outstanding_work_.fetch_sub(1, relaxed)]. *)
Definition outstanding_work_fetch_sub (d : Z) : M Z :=
  g <- get_context ;;
  log (Fetch_sub (outstanding_work_ g)) ;;
  put_context (with_outstanding_work (wrap_long (outstanding_work_ g - d)) g) ;;
  ret (outstanding_work_ g).

(** Modelled from the spec: [AtomicIntrusiveQueue::try_mark_active]
    (agrpc/detail/atomic_intrusive_queue.hpp is absent): "transitions
    inactive→active, returns whether the transition happened". *)
Definition try_mark_active : M bool :=
  g <- get_context ;;
  log (Try_mark_active (negb (remote_work_queue_ g))) ;;
  put_context (with_remote_work_queue true g) ;;
  ret (negb (remote_work_queue_ g)).

(** Modelled from the spec: [GrpcContextImplementation::trigger_work_alarm]
    (grpc_context_implementation_definition.hpp is absent): "fires the
    alarm". *)
Definition trigger_work_alarm : M unit :=
  log Trigger_work_alarm ;;
  modify_context (fun g => with_work_alarm (S (work_alarm_ g)) g).

(** ** [GrpcContext::stop], [reset], [is_stopped], work counting *)

(** [GrpcContextImplementation::running_in_this_thread] on this context depends on
    the calling thread only (a thread-local); the embedding takes its
    value as the argument [in_loop_thread]. *)
Definition stop (in_loop_thread : bool) : M unit :=
  log Call_stop ;;
  old <- stopped_exchange true ;;
  if negb old && negb in_loop_thread then
    marked <- try_mark_active ;;
    when marked trigger_work_alarm
  else ret tt.

Definition reset : M unit := modify_context (with_stopped false).

Definition is_stopped (w : World) : bool := stopped_ (grpc_context w).

Definition work_started : M unit :=
  log Call_work_started ;;
  _ <- outstanding_work_fetch_add 1 ;;
  ret tt.

Definition work_finished (in_loop_thread : bool) : M unit :=
  log Call_work_finished ;;
  old <- outstanding_work_fetch_sub 1 ;;
  when (1 =? old) (stop in_loop_thread).

(** ** Arenas: [detail::create_resources], [detail::delete_resources] *)

(** [new detail::ListablePoolResource()]. *)
Definition new_resource : M Resource :=
  h <- get_heap ;;
  log (New_resource (next_address h)) ;;
  put_heap (mkHeap (S (next_address h)) (next_address h :: live h)) ;;
  ret (next_address h).

(** [delete &r]. *)
Definition delete_resource (r : Resource) : M unit :=
  log (Delete_resource r) ;;
  h <- get_heap ;;
  put_heap (mkHeap (next_address h) (remove Nat.eq_dec r (live h))).

(** Modelled from the spec: the intrusive list that holds the "pool of
    memory arenas" (its header is absent), as a list: [push_front] links
    an arena at the front. *)
Definition push_front (r : Resource) : M unit :=
  modify_context (fun g => with_memory_resources (r :: memory_resources_ g) g).

(** Modelled from the spec: [empty()] of the same list. *)
Definition empty : M bool :=
  g <- get_context ;;
  ret (match memory_resources_ g with [] => true | _ :: _ => false end).

(** Modelled from the spec: [pop_front()] of the same list, which unlinks
    and returns the first arena.  On an empty list it is undefined in C++
    ("callers check [empty()] first"); the embedding returns address 0
    there, and the one caller does check. *)
Definition pop_front : M Resource :=
  g <- get_context ;;
  put_context (with_memory_resources (tl (memory_resources_ g)) g) ;;
  ret (hd 0%nat (memory_resources_ g)).

(** [for (size_t i{}; i != concurrency_hint; ++i)]: the argument is the
    number of iterations still to run, [concurrency_hint - i]. *)
Fixpoint create_resources (concurrency_hint : nat) : M unit :=
  match concurrency_hint with
  | O => ret tt
  | S remaining =>
      resource <- new_resource ;;
      push_front resource ;;
      create_resources remaining
  end.

(** [while (!resources.empty()) delete &resources.pop_front();] with a
    bound on the number of tests of the loop condition. *)
Fixpoint delete_resources_loop (fuel : nat) : M unit :=
  match fuel with
  | O => ret tt
  | S fuel' =>
      e <- empty ;;
      if e then ret tt
      else
        r <- pop_front ;;
        delete_resource r ;;
        delete_resources_loop fuel'
  end.

(** One test per arena and the last one that finds the list empty. *)
Definition delete_resources : M unit :=
  g <- get_context ;;
  delete_resources_loop (S (length (memory_resources_ g))).

(** ** Construction and destruction *)

(** [std::make_unique<grpc::CompletionQueue>()]. *)
Definition new_completion_queue : CompletionQueue := mkCompletionQueue false [].

(** [GrpcContext(std::unique_ptr<grpc::CompletionQueue>, std::size_t)] and
    its [ServerCompletionQueue] twin: the two initialisers, the default
    member initialisers (counter 0, flags false, remote queue inactive,
    no arena), then the body. *)
Definition GrpcContext_construct (completion_queue : CompletionQueue)
  (concurrency_hint : nat) : M unit :=
  put_context
    (mkGrpcContext 0 0 false false (1 <? concurrency_hint)%nat
       completion_queue [] false) ;;
  create_resources concurrency_hint.

(** [GrpcContext::GrpcContext()]. *)
Definition GrpcContext_default : M unit :=
  GrpcContext_construct new_completion_queue 1.

(** [GrpcContext::GrpcContext(std::size_t concurrency_hint)]. *)
Definition GrpcContext_with_hint (concurrency_hint : nat) : M unit :=
  GrpcContext_construct new_completion_queue concurrency_hint.

(** The two constructors that take only a completion queue. *)
Definition GrpcContext_with_queue (completion_queue : CompletionQueue)
  : M unit :=
  GrpcContext_construct completion_queue 1.

(** [shutdown_.store(true, relaxed)]. *)
Definition shutdown_store (b : bool) : M unit :=
  log Shutdown_store ;;
  modify_context (with_shutdown b).

(** [completion_queue_->Shutdown()]. *)
Definition completion_queue_Shutdown : M unit :=
  log CQ_Shutdown ;;
  modify_context (fun g =>
    with_completion_queue
      (mkCompletionQueue true (cq_pending (completion_queue_ g))) g).

Fixpoint discard_events (ts : list Tag) : M unit :=
  match ts with
  | [] => ret tt
  | t :: rest => log (CQ_discard t) ;; discard_events rest
  end.

(** Modelled from the spec: [GrpcContextImplementation::drain_completion_queue]
    (grpc_context_implementation_definition.hpp is absent): "drain it
    fully without invoking any remaining operations (they are
    abandoned)".  Every event still in the queue is taken off it and
    dropped; no handler runs. *)
Definition drain_completion_queue : M unit :=
  g <- get_context ;;
  discard_events (cq_pending (completion_queue_ g)) ;;
  modify_context (fun g =>
    with_completion_queue
      (mkCompletionQueue (cq_shutdown (completion_queue_ g)) []) g).

(** [asio::execution_context::shutdown()] and [destroy()] of the base
    class. *)
Definition execution_context_shutdown : M unit := log Asio_shutdown.
Definition execution_context_destroy : M unit := log Asio_destroy.

(** [GrpcContext::~GrpcContext()].  [with_asio] says whether
    [AGRPC_STANDALONE_ASIO] or [AGRPC_BOOST_ASIO] is defined. *)
Definition GrpcContext_destruct (with_asio in_loop_thread : bool) : M unit :=
  stop in_loop_thread ;;
  shutdown_store true ;;
  completion_queue_Shutdown ;;
  drain_completion_queue ;;
  when with_asio
    (execution_context_shutdown ;;
     execution_context_destroy) ;;
  delete_resources.

(** ** The run loop entry points *)

(** Modelled from the spec: [detail::DoOneResult] (declared in the absent
    grpc_context_implementation.hpp).  One pass of the loop "reports
    whether at least one operation (of the requested category — full
    engine vs. completion-source-only) was processed": the result records
    whether a locally queued operation ran and whether a
    completion-queue event was handled.  [bool{result}] holds when either
    did, [DoOneResult{}] is the empty result. *)
Record DoOneResult := mkDoOneResult {
  handled_local_work_ : bool;
  handled_event_ : bool
}.

(** Modelled from the spec: [explicit operator bool] of [DoOneResult],
    "at least one operation" of the full engine. *)
Definition DoOneResult_bool (r : DoOneResult) : bool :=
  handled_local_work_ r || handled_event_ r.

(** Modelled from the spec: [DoOneResult::handled_completion_queue_event],
    "at least one operation" of the completion source only. *)
Definition handled_completion_queue_event (r : DoOneResult) : bool :=
  handled_event_ r.

(** Modelled from the spec: [DoOneResult{}], nothing processed. *)
Definition DoOneResult_empty : DoOneResult := mkDoOneResult false false.

(** What [process_work] asks of its [LoopFunction] template argument. *)
Class LoopFunction (F : Type) := {
  invoke : F -> M DoOneResult;
  has_processed : F -> DoOneResult -> bool
}.

(** [detail::GrpcContextLoopFunction<Function>]. *)
Record GrpcContextLoopFunction := mkLoopFunction {
  function_ : M DoOneResult
}.

#[export] Instance GrpcContextLoopFunction_loop
  : LoopFunction GrpcContextLoopFunction := {
  invoke f := function_ f;
  has_processed _ result := DoOneResult_bool result
}.

(** [detail::GrpcContextCompletionQueueLoopFunction<Function>]. *)
Record GrpcContextCompletionQueueLoopFunction := mkCompletionQueueLoopFunction {
  cq_function_ : M DoOneResult
}.

#[export] Instance GrpcContextCompletionQueueLoopFunction_loop
  : LoopFunction GrpcContextCompletionQueueLoopFunction := {
  invoke f := cq_function_ f;
  has_processed _ result := handled_completion_queue_event result
}.

(** Modelled from the spec: [GrpcContextImplementation::process_work]
    (absent).  It calls the loop function repeatedly and its "return
    value reports whether at least one operation (of the requested
    category) was processed", the category being the loop function's
    [has_processed].  When the loop leaves is decided by code that is not
    there; [passes] is the number of times the loop function is called
    before it does. *)
Fixpoint process_work_from {F : Type} `{LoopFunction F} (passes : nat)
  (loop_function : F) (processed : bool) : M bool :=
  match passes with
  | O => ret processed
  | S passes' =>
      result <- invoke loop_function ;;
      process_work_from passes' loop_function
        (processed || has_processed loop_function result)
  end.

Definition process_work {F : Type} `{LoopFunction F} (passes : nat)
  (loop_function : F) : M bool :=
  process_work_from passes loop_function false.

(** The results of the successive passes, for the statements. *)
Fixpoint pass_results (passes : nat) (f : M DoOneResult) (w : World)
  : list DoOneResult :=
  match passes with
  | O => []
  | S passes' => eval f w :: pass_results passes' f (exec f w)
  end.

(** Modelled from the spec: the deadlines of a pass,
    [GrpcContextImplementation::TIME_ZERO] ("non-blocking for poll()"),
    [INFINITE_FUTURE] ("unbounded (blocking) for run()") and a
    [::gpr_timespec] in between ("bounded by deadline for run_until"). *)
Inductive gpr_timespec :=
| TIME_ZERO
| INFINITE_FUTURE
| time_point (t : Z).

Section RunLoop.

(** [GrpcContextImplementation::do_one_if_not_stopped] and
    [do_one_completion_queue_if_not_stopped] are absent; the entry points
    are embedded over them. *)
Variable do_one_if_not_stopped : gpr_timespec -> M DoOneResult.
Variable do_one_completion_queue_if_not_stopped : gpr_timespec -> M DoOneResult.

Definition run (passes : nat) : M bool :=
  process_work passes
    (mkLoopFunction (do_one_if_not_stopped INFINITE_FUTURE)).

Definition run_completion_queue (passes : nat) : M bool :=
  process_work passes
    (mkCompletionQueueLoopFunction
       (do_one_completion_queue_if_not_stopped INFINITE_FUTURE)).

Definition poll (passes : nat) : M bool :=
  process_work passes
    (mkLoopFunction (do_one_if_not_stopped TIME_ZERO)).

Definition run_until_impl (deadline : gpr_timespec) (passes : nat) : M bool :=
  process_work passes
    (mkLoopFunction (do_one_if_not_stopped deadline)).

(** [run_until(deadline)] converts the deadline and calls
    [run_until_impl]. *)
Definition run_until (deadline : Z) (passes : nat) : M bool :=
  run_until_impl (time_point deadline) passes.

Definition run_while_body (condition : M bool) : M DoOneResult :=
  c <- condition ;;
  if negb c then ret DoOneResult_empty
  else do_one_if_not_stopped INFINITE_FUTURE.

Definition run_while (condition : M bool) (passes : nat) : M bool :=
  process_work passes (mkLoopFunction (run_while_body condition)).

Definition poll_completion_queue (passes : nat) : M bool :=
  process_work passes
    (mkCompletionQueueLoopFunction
       (do_one_completion_queue_if_not_stopped TIME_ZERO)).

End RunLoop.

(** ** Two threads inside [stop]

    [stop] is three atomic accesses in a row.  For statements about calls
    that overlap, a thread inside [stop] is at one of these points. *)
Inductive StopPoint :=
| AtExchange
| AtTryMarkActive
| AtTriggerAlarm
| Returned.

(** One atomic access of a thread inside [stop]. *)
Definition stop_step (in_loop_thread : bool) (pc : StopPoint) : M StopPoint :=
  match pc with
  | AtExchange =>
      log Call_stop ;;
      old <- stopped_exchange true ;;
      ret (if negb old && negb in_loop_thread
           then AtTryMarkActive else Returned)
  | AtTryMarkActive =>
      marked <- try_mark_active ;;
      ret (if marked then AtTriggerAlarm else Returned)
  | AtTriggerAlarm => trigger_work_alarm ;; ret Returned
  | Returned => ret Returned
  end.

(** Two threads, named by a boolean; [in_loop t] is what
    [running_in_this_thread] gives in thread [t]. *)
Record StopThreads := mkStopThreads {
  point : bool -> StopPoint;
  world : World
}.

Definition schedule_step (in_loop : bool -> bool) (t : bool) (c : StopThreads)
  : StopThreads :=
  let r := stop_step (in_loop t) (point c t) (world c) in
  mkStopThreads
    (fun u => if Bool.eqb u t then fst r else point c u)
    (snd r).

Definition run_schedule (in_loop : bool -> bool) (schedule : list bool)
  (c : StopThreads) : StopThreads :=
  fold_left (fun c t => schedule_step in_loop t c) schedule c.

(** The world without its history: the objects only. *)
Definition objects (w : World) : Heap * GrpcContext * RPC :=
  (heap w, grpc_context w, rpc w).

(** ** The call wrapper and the responder *)

(** Modelled from the spec: [set_finished()] of the call wrapper (absent),
    the transition "any non-finished state → finished". *)
Definition set_finished : M unit :=
  log Set_finished ;;
  r <- get_rpc ;;
  put_rpc (mkRPC true (writes_done_ r) (status_ r)).

(** Modelled from the spec: [set_writes_done()], the transition "started →
    writes-done issued". *)
Definition set_writes_done : M unit :=
  log Set_writes_done ;;
  r <- get_rpc ;;
  put_rpc (mkRPC (finished_ r) true (status_ r)).

(** Modelled from the spec: [is_finished()], whether the call is
    "finished". *)
Definition is_finished : M bool := r <- get_rpc ;; ret (finished_ r).

(** Modelled from the spec: [is_writes_done()], whether the call is
    "writes-done issued". *)
Definition is_writes_done : M bool := r <- get_rpc ;; ret (writes_done_ r).

(** Modelled from the spec: [ok()], the "already-known outcome" of the
    call: whether the status that Finish stored is OK. *)
Definition ok : M bool := r <- get_rpc ;; ret (Status_ok (status_ r)).

(** A gRPC call that takes a tag leaves the tag with the completion queue
    until its event is taken off the queue. *)
Definition register (t : Tag) : M unit :=
  modify_context (fun g =>
    with_completion_queue
      (mkCompletionQueue (cq_shutdown (completion_queue_ g))
         (cq_pending (completion_queue_ g) ++ [t])) g).

(** The responder's calls.  [StartCall()] of the unary reader takes no
    tag. *)
Definition responder_StartCall (t : option Tag) : M unit :=
  log (StartCall t) ;;
  match t with Some t' => register t' | None => ret tt end.

Definition responder_Finish (t : Tag) : M unit :=
  log (Finish t) ;; register t.

Definition responder_Write (req : Message) (options : WriteOptions) (t : Tag)
  : M unit :=
  log (Write req options t) ;; register t.

Definition responder_WritesDone (t : Tag) : M unit :=
  log (WritesDone t) ;; register t.

Definition responder_Read (response : Message) (t : Tag) : M unit :=
  log (Read response t) ;; register t.

Definition responder_ReadInitialMetadata (t : Tag) : M unit :=
  log (ReadInitialMetadata t) ;; register t.

(** [on_done(v)]: the completion handler runs. *)
Definition on_done (v : Outcome) : M unit := log (On_done v).

(** [on_done.self()], [init.template self<k>()],
    [on_done.template self<k>()]: the tag of sub-state [k] of the
    operation the step rides on. *)
Definition self (operation k : nat) : Tag := (operation, k).

(** ** [detail::RPCAccess] *)

Definition client_initiate_finish (tag : Tag) : M unit :=
  set_finished ;;
  work_started ;;
  responder_Finish tag.

(** ** [detail::ClientContextCancellationFunction] *)

(** [asio::cancellation_type], an enumeration over [unsigned int]. *)
Module cancellation_type.
Definition none : Z := 0.
Definition terminal : Z := 1.
Definition partial : Z := 2.
Definition total : Z := 4.
Definition all : Z := 4294967295.
End cancellation_type.

(** [client_context.TryCancel()]. *)
Definition client_context_TryCancel : M unit := log TryCancel.

Module ClientContextCancellationFunction.

(** [operator()()]. *)
Definition call : M unit := client_context_TryCancel.

(** [operator()(asio::cancellation_type type)]. *)
Definition call_type (type : Z) : M unit :=
  if negb (Z.land type
             (Z.lor cancellation_type.terminal cancellation_type.partial)
           =? 0)
  then call
  else ret tt.

End ClientContextCancellationFunction.

(** ** The sender implementations

    [done] overloaded on [OnDone<k>] is [done_k].  The first argument of a
    [done] is the operation whose tag [on_done.self()] yields. *)

Module ClientUnaryRequestSenderImplementation.

Definition initiate (response : Message) (operation : Tag) : M unit :=
  responder_StartCall None ;;
  responder_Finish operation.

(** [status] is the sender's own member, filled in by gRPC. *)
Definition done (status : Status) (_ : bool) : M unit :=
  on_done (Out_status status).

End ClientUnaryRequestSenderImplementation.

Module GenericClientUnaryRequestSenderImplementation.

Definition initiate (response : Message) (operation : Tag) : M unit :=
  responder_StartCall None ;;
  responder_Finish operation.

Definition done (status : Status) (_ : bool) : M unit :=
  on_done (Out_status status).

End GenericClientUnaryRequestSenderImplementation.

Module ClientClientStreamingRequestSenderImplementation.

Definition initiate (self_ : Tag) : M unit :=
  responder_StartCall (Some self_).

Definition done (operation : nat) (ok_ : bool) : M unit :=
  if ok_ then on_done Out_rpc
  else client_initiate_finish (self operation 0).

End ClientClientStreamingRequestSenderImplementation.

Module ClientServerStreamingRequestSenderImplementation.

Definition initiate (self_ : Tag) : M unit :=
  responder_StartCall (Some self_).

Definition done (operation : nat) (ok_ : bool) : M unit :=
  if ok_ then on_done Out_rpc
  else client_initiate_finish (self operation 0).

End ClientServerStreamingRequestSenderImplementation.

Module ClientBidirectionalStreamingRequestSenderImplementation.

Definition initiate (self_ : Tag) : M unit :=
  responder_StartCall (Some self_).

Definition done (operation : nat) (ok_ : bool) : M unit :=
  if ok_ then on_done Out_rpc
  else client_initiate_finish (self operation 0).

End ClientBidirectionalStreamingRequestSenderImplementation.

(** The specialisation for [GenericRPCType::CLIENT_STREAMING]. *)
Module GenericClientBidirectionalStreamingRequestSenderImplementation.

Definition initiate (self_ : Tag) : M unit :=
  responder_StartCall (Some self_).

Definition done (operation : nat) (ok_ : bool) : M unit :=
  if ok_ then on_done Out_rpc
  else client_initiate_finish (self operation 0).

End GenericClientBidirectionalStreamingRequestSenderImplementation.

Module ReadInitialMetadataSenderImplementation.

Definition initiate (self_ : Tag) : M unit :=
  responder_ReadInitialMetadata self_.

Definition done_0 (operation : nat) (ok_ : bool) : M unit :=
  if ok_ then on_done (Out_bool true)
  else client_initiate_finish (self operation 1).

Definition done_1 (operation : nat) (_ : bool) : M unit :=
  on_done (Out_bool false).

End ReadInitialMetadataSenderImplementation.

Module ReadServerStreamingSenderImplementation.

Definition initiate (response : Message) (operation : Tag) : M unit :=
  responder_Read response operation.

Definition done_0 (operation : nat) (ok_ : bool) : M unit :=
  if ok_ then on_done (Out_bool true)
  else client_initiate_finish (self operation 1).

Definition done_1 (operation : nat) (_ : bool) : M unit :=
  on_done (Out_bool false).

End ReadServerStreamingSenderImplementation.

Module WriteClientStreamingSenderImplementation.

Definition initiate (operation : nat) (req : Message) (options : WriteOptions)
  : M unit :=
  if is_last_message options then
    set_writes_done ;;
    responder_Write req options (self operation 1)
  else
    responder_Write req options (self operation 0).

Definition done_0 (operation : nat) (ok_ : bool) : M unit :=
  if ok_ then on_done (Out_bool true)
  else client_initiate_finish (self operation 2).

Definition done_1 (operation : nat) (_ : bool) : M unit :=
  client_initiate_finish (self operation 2).

Definition done_2 (operation : nat) (_ : bool) : M unit :=
  o <- ok ;; on_done (Out_bool o).

End WriteClientStreamingSenderImplementation.

Module ClientFinishSenderImplementation.

Definition initiate (operation : nat) : M unit :=
  wd <- is_writes_done ;;
  if wd then
    set_finished ;;
    responder_Finish (self operation 1)
  else
    responder_WritesDone (self operation 0).

Definition done_0 (operation : nat) (_ : bool) : M unit :=
  client_initiate_finish (self operation 1).

Definition done_1 (operation : nat) (_ : bool) : M unit :=
  o <- ok ;; on_done (Out_bool o).

End ClientFinishSenderImplementation.

Module ClientReadBidiStreamingSenderImplementation.

Definition initiate (response : Message) (operation : Tag) : M unit :=
  responder_Read response operation.

Definition done (operation : nat) (ok_ : bool) : M unit :=
  on_done (Out_bool ok_).

End ClientReadBidiStreamingSenderImplementation.

Module ClientWriteBidiStreamingSenderImplementation.

Definition initiate (req : Message) (options : WriteOptions) (operation : Tag)
  : M unit :=
  when (is_last_message options) set_writes_done ;;
  responder_Write req options operation.

Definition done (operation : nat) (ok_ : bool) : M unit :=
  on_done (Out_bool ok_).

End ClientWriteBidiStreamingSenderImplementation.

Module ClientWritesDoneSenderImplementation.

Definition initiate (self_ : Tag) : M unit :=
  responder_WritesDone self_.

Definition done (operation : nat) (ok_ : bool) : M unit :=
  set_writes_done ;;
  on_done (Out_bool ok_).

End ClientWritesDoneSenderImplementation.

(** ** [finish] on the call wrapper *)

Definition Tag_eqb (a b : Tag) : bool :=
  (fst a =? fst b)%nat && (snd a =? snd b)%nat.

Fixpoint remove_first (t : Tag) (l : list Tag) : list Tag :=
  match l with
  | [] => []
  | x :: rest => if Tag_eqb t x then rest else x :: remove_first t rest
  end.

(** Modelled from the spec: "initiate(tag) → event arrives on tag →
    done(ok)" (the operation that does this is in the absent
    grpc_sender.hpp).  The event of [t] is taken off the completion
    queue. *)
Definition take_event (t : Tag) : M unit :=
  modify_context (fun g =>
    with_completion_queue
      (mkCompletionQueue (cq_shutdown (completion_queue_ g))
         (remove_first t (cq_pending (completion_queue_ g)))) g).

(** The event of a [Finish]: gRPC has stored the final status of the call
    through the pointer that [Finish] was given, [&rpc.status()]. *)
Definition take_Finish_event (t : Tag) (final : Status) : M unit :=
  r <- get_rpc ;;
  put_rpc (mkRPC (finished_ r) (writes_done_ r) final) ;;
  take_event t.

(** Modelled from the spec: the finish step run to its completion handler,
    "initiate(tag) → event arrives on tag → done(ok)" for each tag that
    [ClientFinishSenderImplementation] registers.  [ok0] and [ok1] are the
    outcomes that the completion queue delivers for WritesDone and
    Finish, [final] the status of the call.  The work counting of the
    operation itself is in the absent part and is left out. *)
Definition run_ClientFinishSender (operation : nat) (final : Status)
  (ok0 ok1 : bool) : M unit :=
  wd <- is_writes_done ;;
  ClientFinishSenderImplementation.initiate operation ;;
  (if wd then ret tt
   else
     take_event (self operation 0) ;;
     ClientFinishSenderImplementation.done_0 operation ok0) ;;
  take_Finish_event (self operation 1) final ;;
  ClientFinishSenderImplementation.done_1 operation ok1.

(** Modelled from the spec: [RPC::finish] of the streaming wrappers
    (absent): "invoking finish twice on the same call yields the second
    call short-circuiting to the first call's already-known outcome
    without registering a second tag". *)
Definition finish (operation : nat) (final : Status) (ok0 ok1 : bool)
  : M unit :=
  fin <- is_finished ;;
  if fin then
    o <- ok ;; on_done (Out_bool o)
  else
    run_ClientFinishSender operation final ok0 ok1.

(** A thread that is at [pc] inside [stop] and runs alone reaches the end
    in at most three accesses. *)
Definition stop_from (in_loop_thread : bool) (pc : StopPoint) : M StopPoint :=
  pc1 <- stop_step in_loop_thread pc ;;
  pc2 <- stop_step in_loop_thread pc1 ;;
  stop_step in_loop_thread pc2.

(** The actions of [w'] that [w] does not have yet. *)
Definition new_actions (w w' : World) : list Action :=
  skipn (length (history w)) (history w').

(** A world to run examples in: a default-constructed context, a call
    that has not been finished, an empty heap. *)
Definition fresh_world : World :=
  exec GrpcContext_default
    (mkWorld (mkHeap 0 [])
       (mkGrpcContext 0 0 false false false new_completion_queue [] false)
       (mkRPC false false (mkStatus 0)) []).

(** The decrement of [work_finished], before the test of the old value. *)
Definition decremented (w : World) : World :=
  mkWorld (heap w)
    (with_outstanding_work
       (wrap_long (outstanding_work_ (grpc_context w) - 1)) (grpc_context w))
    (rpc w)
    (history w ++
       [Call_work_finished; Fetch_sub (outstanding_work_ (grpc_context w))]).

(** Whether, between [w] and [w'], the call was driven to finish: it is
    marked finished and a [Finish] was issued on the responder. *)
Definition is_Finish (a : Action) : bool :=
  match a with Finish _ => true | _ => false end.

Definition is_On_done (a : Action) : bool :=
  match a with On_done _ => true | _ => false end.

Definition finish_initiated (w w' : World) : bool :=
  finished_ (rpc w') && existsb is_Finish (new_actions w w').

(** Whether a completion handler ran between [w] and [w']. *)
Definition handler_invoked (w w' : World) : bool :=
  existsb is_On_done (new_actions w w').

(** ** The passes of [run_while], for the statements *)

(** The results of the calls of [do_one] that are made in [passes] passes
    of a loop that asks [condition] first: a pass in which [condition]
    gives false makes no call, and a pass in which it gives true calls
    [do_one] in the world that [condition] left.  This is written from
    [condition] and [do_one] alone, not from [run_while_body]. *)
Fixpoint calls_while (do_one : M DoOneResult) (condition : M bool)
  (passes : nat) (w : World) : list DoOneResult :=
  match passes with
  | O => []
  | S passes' =>
      if eval condition w
      then eval do_one (exec condition w) ::
           calls_while do_one condition passes'
             (exec do_one (exec condition w))
      else calls_while do_one condition passes' (exec condition w)
  end.

(** The world after those passes. *)
Fixpoint world_while (do_one : M DoOneResult) (condition : M bool)
  (passes : nat) (w : World) : World :=
  match passes with
  | O => w
  | S passes' =>
      if eval condition w
      then world_while do_one condition passes'
             (exec do_one (exec condition w))
      else world_while do_one condition passes' (exec condition w)
  end.

(** ** Sequences of calls on the context *)

(** A sequence of [work_started()] ([true]) and [work_finished()]
    ([false]) calls made one after the other. *)
Fixpoint work_calls (in_loop_thread : bool) (calls : list bool) : M unit :=
  match calls with
  | [] => ret tt
  | true :: rest => work_started ;; work_calls in_loop_thread rest
  | false :: rest =>
      work_finished in_loop_thread ;; work_calls in_loop_thread rest
  end.

(** The counter after the calls, when nothing wraps. *)
Fixpoint balance (n : Z) (calls : list bool) : Z :=
  match calls with
  | [] => n
  | true :: rest => balance (n + 1) rest
  | false :: rest => balance (n - 1) rest
  end.

(** No [work_finished()] of the sequence finds the counter at one, and no
    call takes the counter out of the range of a long. *)
Fixpoint never_from_one (n : Z) (calls : list bool) : bool :=
  match calls with
  | [] => true
  | true :: rest => (n <? LONG_MAX) && never_from_one (n + 1) rest
  | false :: rest =>
      negb (n =? 1) && (LONG_MIN <? n) && never_from_one (n - 1) rest
  end.

Definition is_Call_stop (a : Action) : bool :=
  match a with Call_stop => true | _ => false end.

(** ** Any number of threads on the thread-safe members

    [stop], [reset], [work_started] and [work_finished] are documented as
    thread-safe.  A thread runs a list of such calls; each step of a
    thread is one access to the shared context, as in [stop_step]. *)
Inductive Call :=
| Do_stop
| Do_reset
| Do_work_started
| Do_work_finished.

Definition do_call (in_loop_thread : bool) (c : Call) : M unit :=
  match c with
  | Do_stop => stop in_loop_thread
  | Do_reset => reset
  | Do_work_started => work_started
  | Do_work_finished => work_finished in_loop_thread
  end.

Fixpoint do_calls (in_loop_thread : bool) (calls : list Call) : M unit :=
  match calls with
  | [] => ret tt
  | c :: rest => do_call in_loop_thread c ;; do_calls in_loop_thread rest
  end.

(** A thread: what [running_in_this_thread] gives in it, where it is
    inside [stop] ([Returned] when it is between two calls), and the calls
    it has still to make. *)
Record Thread := mkThread {
  thread_in_loop : bool;
  at_point : StopPoint;
  todo : list Call
}.

(** One access of a thread.  [work_finished] is its [fetch_sub] and then,
    when the old value was one, the accesses of [stop]. *)
Definition thread_step (t : Thread) : M Thread :=
  match at_point t with
  | Returned =>
      match todo t with
      | [] => ret t
      | Do_stop :: rest =>
          pc <- stop_step (thread_in_loop t) AtExchange ;;
          ret (mkThread (thread_in_loop t) pc rest)
      | Do_reset :: rest =>
          reset ;;
          ret (mkThread (thread_in_loop t) Returned rest)
      | Do_work_started :: rest =>
          work_started ;;
          ret (mkThread (thread_in_loop t) Returned rest)
      | Do_work_finished :: rest =>
          log Call_work_finished ;;
          old <- outstanding_work_fetch_sub 1 ;;
          ret (mkThread (thread_in_loop t)
                 (if 1 =? old then AtExchange else Returned) rest)
      end
  | pc =>
      pc' <- stop_step (thread_in_loop t) pc ;;
      ret (mkThread (thread_in_loop t) pc' (todo t))
  end.

Fixpoint set_nth {A : Type} (i : nat) (x : A) (l : list A) : list A :=
  match l, i with
  | [], _ => []
  | _ :: rest, O => x :: rest
  | y :: rest, S j => y :: set_nth j x rest
  end.

Record Pool := mkPool {
  threads : list Thread;
  pool_world : World
}.

(** Thread [i] makes one access; a number that names no thread does
    nothing. *)
Definition pool_step (i : nat) (p : Pool) : Pool :=
  match nth_error (threads p) i with
  | None => p
  | Some t =>
      let r := thread_step t (pool_world p) in
      mkPool (set_nth i (fst r) (threads p)) (snd r)
  end.

Definition run_pool (schedule : list nat) (p : Pool) : Pool :=
  fold_left (fun p i => pool_step i p) schedule p.

(** A thread on its own, for a number of accesses. *)
Fixpoint thread_alone (steps : nat) (t : Thread) : M Thread :=
  match steps with
  | O => ret t
  | S steps' => t' <- thread_step t ;; thread_alone steps' t'
  end.

(** A thread that has won [try_mark_active] and has not set the alarm
    yet. *)
Definition armed (t : Thread) : bool :=
  match at_point t with AtTriggerAlarm => true | _ => false end.

Definition armed_count (ts : list Thread) : nat := length (filter armed ts).

(** ** The steps of the senders, as one type

    Every [initiate] and every [done] overload of
    high_level_client_sender.hpp, with its arguments. *)
Inductive StartKind :=
| ClientStreaming
| ServerStreaming
| BidirectionalStreaming
| GenericStreaming.

Inductive SenderStep :=
| Unary_initiate (generic : bool) (response : Message) (operation : Tag)
| Unary_done (generic : bool) (status : Status) (ok_ : bool)
| Start_initiate (kind : StartKind) (self_ : Tag)
| Start_done (kind : StartKind) (operation : nat) (ok_ : bool)
| Metadata_initiate (self_ : Tag)
| Metadata_done_0 (operation : nat) (ok_ : bool)
| Metadata_done_1 (operation : nat) (ok_ : bool)
| ServerRead_initiate (response : Message) (operation : Tag)
| ServerRead_done_0 (operation : nat) (ok_ : bool)
| ServerRead_done_1 (operation : nat) (ok_ : bool)
| ClientWrite_initiate (operation : nat) (req : Message)
    (options : WriteOptions)
| ClientWrite_done_0 (operation : nat) (ok_ : bool)
| ClientWrite_done_1 (operation : nat) (ok_ : bool)
| ClientWrite_done_2 (operation : nat) (ok_ : bool)
| Finish_initiate (operation : nat)
| Finish_done_0 (operation : nat) (ok_ : bool)
| Finish_done_1 (operation : nat) (ok_ : bool)
| BidiRead_initiate (response : Message) (operation : Tag)
| BidiRead_done (operation : nat) (ok_ : bool)
| BidiWrite_initiate (req : Message) (options : WriteOptions)
    (operation : Tag)
| BidiWrite_done (operation : nat) (ok_ : bool)
| WritesDone_initiate (self_ : Tag)
| WritesDone_done (operation : nat) (ok_ : bool).

Definition run_step (s : SenderStep) : M unit :=
  match s with
  | Unary_initiate false response operation =>
      ClientUnaryRequestSenderImplementation.initiate response operation
  | Unary_initiate true response operation =>
      GenericClientUnaryRequestSenderImplementation.initiate
        response operation
  | Unary_done false status ok_ =>
      ClientUnaryRequestSenderImplementation.done status ok_
  | Unary_done true status ok_ =>
      GenericClientUnaryRequestSenderImplementation.done status ok_
  | Start_initiate ClientStreaming self_ =>
      ClientClientStreamingRequestSenderImplementation.initiate self_
  | Start_initiate ServerStreaming self_ =>
      ClientServerStreamingRequestSenderImplementation.initiate self_
  | Start_initiate BidirectionalStreaming self_ =>
      ClientBidirectionalStreamingRequestSenderImplementation.initiate self_
  | Start_initiate GenericStreaming self_ =>
      GenericClientBidirectionalStreamingRequestSenderImplementation.initiate
        self_
  | Start_done ClientStreaming operation ok_ =>
      ClientClientStreamingRequestSenderImplementation.done operation ok_
  | Start_done ServerStreaming operation ok_ =>
      ClientServerStreamingRequestSenderImplementation.done operation ok_
  | Start_done BidirectionalStreaming operation ok_ =>
      ClientBidirectionalStreamingRequestSenderImplementation.done
        operation ok_
  | Start_done GenericStreaming operation ok_ =>
      GenericClientBidirectionalStreamingRequestSenderImplementation.done
        operation ok_
  | Metadata_initiate self_ =>
      ReadInitialMetadataSenderImplementation.initiate self_
  | Metadata_done_0 operation ok_ =>
      ReadInitialMetadataSenderImplementation.done_0 operation ok_
  | Metadata_done_1 operation ok_ =>
      ReadInitialMetadataSenderImplementation.done_1 operation ok_
  | ServerRead_initiate response operation =>
      ReadServerStreamingSenderImplementation.initiate response operation
  | ServerRead_done_0 operation ok_ =>
      ReadServerStreamingSenderImplementation.done_0 operation ok_
  | ServerRead_done_1 operation ok_ =>
      ReadServerStreamingSenderImplementation.done_1 operation ok_
  | ClientWrite_initiate operation req options =>
      WriteClientStreamingSenderImplementation.initiate operation req options
  | ClientWrite_done_0 operation ok_ =>
      WriteClientStreamingSenderImplementation.done_0 operation ok_
  | ClientWrite_done_1 operation ok_ =>
      WriteClientStreamingSenderImplementation.done_1 operation ok_
  | ClientWrite_done_2 operation ok_ =>
      WriteClientStreamingSenderImplementation.done_2 operation ok_
  | Finish_initiate operation =>
      ClientFinishSenderImplementation.initiate operation
  | Finish_done_0 operation ok_ =>
      ClientFinishSenderImplementation.done_0 operation ok_
  | Finish_done_1 operation ok_ =>
      ClientFinishSenderImplementation.done_1 operation ok_
  | BidiRead_initiate response operation =>
      ClientReadBidiStreamingSenderImplementation.initiate response operation
  | BidiRead_done operation ok_ =>
      ClientReadBidiStreamingSenderImplementation.done operation ok_
  | BidiWrite_initiate req options operation =>
      ClientWriteBidiStreamingSenderImplementation.initiate
        req options operation
  | BidiWrite_done operation ok_ =>
      ClientWriteBidiStreamingSenderImplementation.done operation ok_
  | WritesDone_initiate self_ =>
      ClientWritesDoneSenderImplementation.initiate self_
  | WritesDone_done operation ok_ =>
      ClientWritesDoneSenderImplementation.done operation ok_
  end.

Definition is_initiate (s : SenderStep) : bool :=
  match s with
  | Unary_initiate _ _ _ | Start_initiate _ _ | Metadata_initiate _
  | ServerRead_initiate _ _ | ClientWrite_initiate _ _ _
  | Finish_initiate _ | BidiRead_initiate _ _ | BidiWrite_initiate _ _ _
  | WritesDone_initiate _ => true
  | _ => false
  end.

(** The [done] overloads of the senders whose sub-states are numbered:
    the operation and the number [k] of [OnDone<k>]. *)
Definition numbered_done (s : SenderStep) : option (nat * nat) :=
  match s with
  | Metadata_done_0 operation _ | ServerRead_done_0 operation _
  | ClientWrite_done_0 operation _ | Finish_done_0 operation _ =>
      Some (operation, 0%nat)
  | Metadata_done_1 operation _ | ServerRead_done_1 operation _
  | ClientWrite_done_1 operation _ | Finish_done_1 operation _ =>
      Some (operation, 1%nat)
  | ClientWrite_done_2 operation _ => Some (operation, 2%nat)
  | _ => None
  end.

(** The tag that a call on the responder leaves with the completion
    queue. *)
Definition registered (a : Action) : list Tag :=
  match a with
  | StartCall (Some t) | Finish t | Write _ _ t | WritesDone t | Read _ t
  | ReadInitialMetadata t => [t]
  | _ => []
  end.

Definition registered_tags (acts : list Action) : list Tag :=
  flat_map registered acts.

Definition handlers_run (acts : list Action) : nat :=
  length (filter is_On_done acts).

Definition is_WritesDone (a : Action) : bool :=
  match a with WritesDone _ => true | _ => false end.

Definition is_Call_work_started (a : Action) : bool :=
  match a with Call_work_started => true | _ => false end.

(** One for a set flag, for sums over flags. *)
Definition alarm_weight (b : bool) : nat := if b then 1%nat else 0%nat.

(** * Proofs *)

Ltac unfold_m :=
  unfold exec, eval, new_actions, objects, is_stopped,
    work_finished, work_started, stop, reset, when,
    outstanding_work_fetch_add, outstanding_work_fetch_sub,
    stopped_exchange, try_mark_active, trigger_work_alarm,
    shutdown_store, completion_queue_Shutdown,
    execution_context_shutdown, execution_context_destroy,
    modify_context, bind, ret, log, get_context, put_context,
    get_rpc, put_rpc, get_heap, put_heap in *.

Ltac split_all :=
  repeat match goal with |- _ /\ _ => split end.

Ltac destruct_world w :=
  let h := fresh "h" in
  let g := fresh "g" in
  let r := fresh "r" in
  let hist := fresh "hist" in
  destruct w as [h g r hist];
  let alarm := fresh "alarm" in
  let n := fresh "n" in
  let st := fresh "stopped" in
  let sd := fresh "shutdown" in
  let mt := fresh "mt" in
  let cq := fresh "cq" in
  let mr := fresh "mr" in
  let rq := fresh "active" in
  destruct g as [alarm n st sd mt cq mr rq].

Lemma exec_bind {A B : Type} (m : M A) (k : A -> M B) (w : World) :
  exec (bind m k) w = exec (k (eval m w)) (exec m w).
Proof. unfold exec, eval, bind; destruct (m w); reflexivity. Qed.

Lemma eval_bind {A B : Type} (m : M A) (k : A -> M B) (w : World) :
  eval (bind m k) w = eval (k (eval m w)) (exec m w).
Proof. unfold exec, eval, bind; destruct (m w); reflexivity. Qed.

Lemma exec_seq {A : Type} (m : M A) (k : M unit) (w : World) :
  exec (m ;; k) w = exec k (exec m w).
Proof. apply exec_bind. Qed.

Lemma LONG_bounds :
  LONG_MIN = -9223372036854775808 /\ LONG_MAX = 9223372036854775807.
Proof. split; reflexivity. Qed.

Lemma wrap_long_id (z : Z) : LONG_MIN <= z <= LONG_MAX -> wrap_long z = z.
Proof.
  unfold wrap_long, LONG_MIN, LONG_MAX, long_bits.
  change (2 ^ (64 - 1)) with 9223372036854775808.
  change (2 ^ 64) with 18446744073709551616.
  intros Hz; rewrite Z.mod_small; lia.
Qed.

Lemma wrap_long_range (z : Z) : LONG_MIN <= wrap_long z <= LONG_MAX.
Proof.
  unfold wrap_long, LONG_MIN, LONG_MAX, long_bits.
  change (2 ^ (64 - 1)) with 9223372036854775808.
  change (2 ^ 64) with 18446744073709551616.
  pose proof (Z.mod_pos_bound (z + 9223372036854775808)
                18446744073709551616 eq_refl).
  lia.
Qed.

Lemma history_app_new (w w' : World) (l : list Action) :
  history w' = history w ++ l -> new_actions w w' = l.
Proof.
  unfold new_actions; intros ->.
  rewrite skipn_app, skipn_all, Nat.sub_diag; reflexivity.
Qed.

(** ** [stop] *)

Lemma stop_history (in_loop_thread : bool) (w : World) :
  history (exec (stop in_loop_thread) w) =
  history w ++
    Call_stop :: Stopped_exchange (stopped_ (grpc_context w)) ::
    (if negb (stopped_ (grpc_context w)) && negb in_loop_thread
     then Try_mark_active (negb (remote_work_queue_ (grpc_context w))) ::
          (if negb (remote_work_queue_ (grpc_context w))
           then [Trigger_work_alarm] else [])
     else []).
Proof.
  destruct_world w; unfold_m; cbn.
  destruct stopped, in_loop_thread, active; cbn;
    repeat rewrite <- app_assoc; reflexivity.
Qed.

Lemma stop_context (in_loop_thread : bool) (w : World) :
  grpc_context (exec (stop in_loop_thread) w) =
  let g := grpc_context w in
  if negb (stopped_ g) && negb in_loop_thread then
    with_work_alarm
      (if remote_work_queue_ g then work_alarm_ g else S (work_alarm_ g))
      (with_remote_work_queue true (with_stopped true g))
  else with_stopped true g.
Proof.
  destruct_world w; unfold_m; cbn.
  destruct stopped, in_loop_thread, active; reflexivity.
Qed.

Lemma stop_frame (in_loop_thread : bool) (w : World) :
  heap (exec (stop in_loop_thread) w) = heap w /\
  rpc (exec (stop in_loop_thread) w) = rpc w.
Proof.
  destruct_world w; unfold_m; cbn.
  destruct stopped, in_loop_thread, active; split; reflexivity.
Qed.

Lemma stop_is_stopped (in_loop_thread : bool) (w : World) :
  is_stopped (exec (stop in_loop_thread) w) = true.
Proof.
  unfold is_stopped; rewrite stop_context; cbn.
  destruct (negb (stopped_ (grpc_context w)) && negb in_loop_thread);
    reflexivity.
Qed.

Lemma stop_twice (a b : bool) (w : World) :
  objects (exec (stop b) (exec (stop a) w)) = objects (exec (stop a) w) /\
  history (exec (stop b) (exec (stop a) w)) =
  history (exec (stop a) w) ++ [Call_stop; Stopped_exchange true].
Proof.
  split.
  - unfold objects.
    destruct (stop_frame b (exec (stop a) w)) as [-> ->].
    rewrite (stop_context b).
    pose proof (stop_is_stopped a w) as Hs; unfold is_stopped in Hs.
    cbn; rewrite Hs; cbn.
    destruct (grpc_context (exec (stop a) w)); cbn in *; subst; reflexivity.
  - rewrite (stop_history b).
    pose proof (stop_is_stopped a w) as Hs; unfold is_stopped in Hs.
    rewrite Hs; reflexivity.
Qed.

(** ** Overlapping calls of [stop] *)

Ltac crush_stop_step :=
  repeat match goal with
    | w : World |- _ => destruct_world w
    | pc : StopPoint |- _ => destruct pc
    | b : bool |- _ => destruct b
    end;
  unfold stop_from, stop_step; unfold_m; cbn in *;
  try discriminate; try reflexivity.

(** Run alone from the first access, the steps are [stop]. *)
Lemma stop_from_start (b : bool) (w : World) :
  exec (stop_from b AtExchange) w = exec (stop b) w.
Proof. crush_stop_step. Qed.

Lemma stop_from_Returned (b : bool) (w : World) :
  exec (stop_from b Returned) w = w.
Proof. destruct w; reflexivity. Qed.

(** Taking one step first does not change where the thread ends. *)
Lemma stop_from_shift (b : bool) (pc : StopPoint) (w : World) :
  exec (stop_from b (eval (stop_step b pc) w)) (exec (stop_step b pc) w) =
  exec (stop_from b pc) w.
Proof. crush_stop_step. Qed.

Lemma stop_step_keeps_stopped (b : bool) (pc : StopPoint) (w : World) :
  stopped_ (grpc_context w) = true ->
  stopped_ (grpc_context (exec (stop_step b pc) w)) = true.
Proof. intros H; crush_stop_step. Qed.

(** The thread that finds the flag set returns at once and leaves the
    objects alone. *)
Lemma stop_step_loser (b : bool) (pc : StopPoint) (w : World) :
  stopped_ (grpc_context w) = true ->
  pc = AtExchange \/ pc = Returned ->
  eval (stop_step b pc) w = Returned /\
  objects (exec (stop_step b pc) w) = objects w.
Proof.
  intros H [-> | ->]; destruct_world w; cbn in H; subst;
    unfold stop_step; unfold_m; cbn; split; reflexivity.
Qed.

Lemma stop_step_first (b : bool) (w : World) :
  stopped_ (grpc_context (exec (stop_step b AtExchange) w)) = true.
Proof. crush_stop_step. Qed.

(** The steps look at the objects only. *)
Lemma stop_from_objects (b : bool) (pc : StopPoint) (w w' : World) :
  objects w = objects w' ->
  objects (exec (stop_from b pc) w) = objects (exec (stop_from b pc) w').
Proof.
  destruct w as [h g r hist], w' as [h' g' r' hist']; unfold objects; cbn.
  intros H; injection H as -> -> ->.
  destruct g' as [alarm n st sd mt cq mr rq].
  destruct pc, b, st, rq; reflexivity.
Qed.

Lemma schedule_invariant (in_loop : bool -> bool) (first : bool)
  (schedule : list bool) :
  forall c : StopThreads,
    stopped_ (grpc_context (world c)) = true ->
    point c (negb first) = AtExchange \/ point c (negb first) = Returned ->
    (forall t, point (run_schedule in_loop schedule c) t = Returned) ->
    objects (world (run_schedule in_loop schedule c)) =
    objects (exec (stop_from (in_loop first) (point c first)) (world c)).
Proof.
  induction schedule as [| t rest IH]; intros c Hstopped Hother Hend.
  - cbn in *. rewrite (Hend first), stop_from_Returned. reflexivity.
  - cbn [run_schedule fold_left] in *.
    fold (run_schedule in_loop rest (schedule_step in_loop t c)) in *.
    destruct (Bool.eqb t first) eqn:Et.
    + apply Bool.eqb_prop in Et; subst t.
      rewrite (IH (schedule_step in_loop first c)); [ | | | exact Hend].
      * unfold schedule_step; cbn [point world].
        rewrite Bool.eqb_reflx.
        f_equal.
        apply (stop_from_shift (in_loop first) (point c first) (world c)).
      * unfold schedule_step; cbn [point world].
        apply (stop_step_keeps_stopped _ _ _ Hstopped).
      * unfold schedule_step; cbn [point world].
        destruct first; cbn; exact Hother.
    + assert (t = negb first) as -> by (destruct t, first; cbn in Et |- *; congruence).
      destruct (stop_step_loser (in_loop (negb first)) _ _ Hstopped Hother)
        as [Hpc Hobj].
      rewrite (IH (schedule_step in_loop (negb first) c));
        [ | | | exact Hend].
      * unfold schedule_step; cbn [point world].
        replace (Bool.eqb first (negb first)) with false by (destruct first; reflexivity).
        apply stop_from_objects; exact Hobj.
      * unfold schedule_step; cbn [point world].
        apply (stop_step_keeps_stopped _ _ _ Hstopped).
      * unfold schedule_step; cbn [point world].
        rewrite Bool.eqb_reflx. right; exact Hpc.
Qed.

(** Two calls of [stop] that overlap in any way leave the objects as the
    call that came first to its exchange leaves them when it runs alone. *)
Lemma stop_interleaved (in_loop : bool -> bool) (schedule : list bool)
  (w : World) :
  (forall t,
     point (run_schedule in_loop schedule
              (mkStopThreads (fun _ => AtExchange) w)) t = Returned) ->
  objects (world (run_schedule in_loop schedule
                    (mkStopThreads (fun _ => AtExchange) w))) =
  objects (exec (stop (in_loop (hd true schedule))) w).
Proof.
  destruct schedule as [| first rest]; intros Hend.
  - specialize (Hend true); cbn in Hend; discriminate.
  - cbn [run_schedule fold_left hd] in *.
    fold (run_schedule in_loop rest
            (schedule_step in_loop first (mkStopThreads (fun _ => AtExchange) w))) in *.
    rewrite (schedule_invariant in_loop first rest); [ | | | exact Hend].
    + unfold schedule_step; cbn [point world].
      rewrite Bool.eqb_reflx.
      f_equal.
      rewrite <- stop_from_start.
      apply (stop_from_shift (in_loop first) AtExchange w).
    + unfold schedule_step; cbn [point world].
      apply (stop_step_first (in_loop first) w).
    + unfold schedule_step; cbn [point world].
      left; destruct first; reflexivity.
Qed.

(** ** Work counting *)

Lemma work_started_world (w : World) :
  exec work_started w =
  mkWorld (heap w)
    (with_outstanding_work
       (wrap_long (outstanding_work_ (grpc_context w) + 1)) (grpc_context w))
    (rpc w)
    (history w ++
       [Call_work_started; Fetch_add (outstanding_work_ (grpc_context w))]).
Proof.
  destruct_world w; unfold_m; cbn -[wrap_long].
  rewrite <- app_assoc; reflexivity.
Qed.

Lemma work_finished_world (in_loop_thread : bool) (w : World) :
  exec (work_finished in_loop_thread) w =
  if 1 =? outstanding_work_ (grpc_context w)
  then exec (stop in_loop_thread) (decremented w)
  else decremented w.
Proof.
  destruct_world w; unfold decremented; unfold_m; cbn -[wrap_long Z.eqb].
  destruct (1 =? n); cbn -[wrap_long]; rewrite <- !app_assoc; reflexivity.
Qed.

(** C1: [work_started()] is one atomic increment of the outstanding-work
    counter and [work_finished()] one atomic decrement; [work_finished()]
    calls [stop()] exactly when the value it decremented was one, that is
    when the counter goes from one to zero; so [work_started()] followed
    at once by [work_finished()], with no other outstanding work, leaves
    the context stopped. *)
Theorem work_counting_and_idle_stop :
  forall (w : World) (in_loop_thread : bool),
    let n := outstanding_work_ (grpc_context w) in
    let ws := exec work_started w in
    let wf := exec (work_finished in_loop_thread) w in
    (* work_started: the increment and nothing else *)
    objects ws =
      (heap w, with_outstanding_work (wrap_long (n + 1)) (grpc_context w),
       rpc w) /\
    new_actions w ws = [Call_work_started; Fetch_add n] /\
    (LONG_MIN <= n < LONG_MAX ->
     outstanding_work_ (grpc_context ws) = n + 1) /\
    (* work_finished: the decrement, then stop() when the old value is 1 *)
    outstanding_work_ (grpc_context wf) = wrap_long (n - 1) /\
    (LONG_MIN < n <= LONG_MAX ->
     outstanding_work_ (grpc_context wf) = n - 1) /\
    wf = (if n =? 1 then exec (stop in_loop_thread) (decremented w)
          else decremented w) /\
    (In Call_stop (new_actions w wf) <-> n = 1) /\
    (n = 1 ->
     outstanding_work_ (grpc_context wf) = 0 /\ is_stopped wf = true) /\
    (n <> 1 -> is_stopped wf = is_stopped w) /\
    (* idle stop *)
    (n = 0 ->
     is_stopped (exec (work_started ;; work_finished in_loop_thread) w)
     = true).
Proof.
  intros w in_loop_thread n ws wf.
  assert (Hwf : wf = (if n =? 1
                      then exec (stop in_loop_thread) (decremented w)
                      else decremented w)).
  { subst wf n; rewrite work_finished_world, Z.eqb_sym; reflexivity. }
  assert (Hws : ws = mkWorld (heap w)
                       (with_outstanding_work (wrap_long (n + 1))
                          (grpc_context w))
                       (rpc w)
                       (history w ++ [Call_work_started; Fetch_add n]))
    by apply work_started_world.
  assert (Hcount : outstanding_work_ (grpc_context wf) = wrap_long (n - 1)).
  { rewrite Hwf; destruct (n =? 1).
    - rewrite stop_context; cbn -[wrap_long].
      destruct (negb (stopped_ (grpc_context w)) && negb in_loop_thread);
        reflexivity.
    - reflexivity. }
  split_all.
  - rewrite Hws; reflexivity.
  - apply history_app_new; rewrite Hws; reflexivity.
  - intros Hn; rewrite Hws; cbn -[wrap_long].
    apply wrap_long_id; lia.
  - exact Hcount.
  - intros Hn; rewrite Hcount; apply wrap_long_id; lia.
  - exact Hwf.
  - rewrite Hwf; destruct (Z.eqb_spec n 1) as [E | E]; split.
    + intros _; exact E.
    + intros _.
      erewrite history_app_new.
      2:{ rewrite stop_history; cbn [decremented history].
          rewrite <- app_assoc; reflexivity. }
      cbn; auto.
    + intros Hin.
      rewrite (history_app_new w (decremented w)
                 [Call_work_finished; Fetch_sub n] eq_refl) in Hin.
      cbn in Hin; destruct Hin as [H | [H | []]]; discriminate.
    + intros E'; contradiction.
  - intros E; split.
    + rewrite Hcount, E; reflexivity.
    + rewrite Hwf, E; cbn [Z.eqb Pos.eqb]; apply stop_is_stopped.
  - intros E; rewrite Hwf.
    destruct (Z.eqb_spec n 1); [contradiction | reflexivity].
  - intros E; rewrite exec_seq; fold ws.
    rewrite work_finished_world, Hws; cbn -[wrap_long Z.eqb].
    fold n; rewrite E; cbn; apply stop_is_stopped.
Qed.

(** The idle stop of C1 on a default-constructed context. *)
Lemma work_counting_and_idle_stop_witness :
  outstanding_work_ (grpc_context fresh_world) = 0 /\
  is_stopped (exec (work_started ;; work_finished false) fresh_world) = true.
Proof.
  split; [reflexivity |].
  destruct (work_counting_and_idle_stop fresh_world false)
    as (_ & _ & _ & _ & _ & _ & _ & _ & _ & Hidle).
  apply Hidle; reflexivity.
Defined.

(** ** [stop], as a whole *)

(** C2: [stop()] sets the stopped flag.  It marks the remote queue active
    and fires the work alarm only when the flag was not set before, the
    caller is not the thread that runs the loop, and the inactive-to-active
    transition of the remote queue succeeds.  A second [stop()] changes
    nothing, after the first one or overlapping with it in any way. *)
Theorem stop_sets_flag_wakes_loop_and_is_idempotent :
  forall (w : World) (in_loop_thread again_in_loop_thread : bool),
    let g := grpc_context w in
    let w1 := exec (stop in_loop_thread) w in
    let g1 := grpc_context w1 in
    let outside := negb (stopped_ g) && negb in_loop_thread in
    let wakes := outside && negb (remote_work_queue_ g) in
    (* the flag *)
    stopped_ g1 = true /\
    (* the remote queue and the alarm *)
    remote_work_queue_ g1 = (if outside then true else remote_work_queue_ g) /\
    work_alarm_ g1 = (if wakes then S (work_alarm_ g) else work_alarm_ g) /\
    (In (Try_mark_active true) (new_actions w w1) <-> wakes = true) /\
    (In Trigger_work_alarm (new_actions w w1) <-> wakes = true) /\
    (* nothing else *)
    objects w1 =
      (heap w,
       with_work_alarm (work_alarm_ g1)
         (with_remote_work_queue (remote_work_queue_ g1)
            (with_stopped true g)),
       rpc w) /\
    (* a second call, afterwards *)
    objects (exec (stop again_in_loop_thread) w1) = objects w1 /\
    new_actions w1 (exec (stop again_in_loop_thread) w1) =
      [Call_stop; Stopped_exchange true] /\
    (* two calls that overlap *)
    (forall (in_loop : bool -> bool) (schedule : list bool),
       let final :=
         run_schedule in_loop schedule
           (mkStopThreads (fun _ => AtExchange) w) in
       (forall t, point final t = Returned) ->
       objects (world final) =
       objects (exec (stop (in_loop (hd true schedule))) w)).
Proof.
  intros w in_loop_thread again g w1 g1 outside wakes.
  assert (Hg1 : g1 =
                if outside then
                  with_work_alarm
                    (if remote_work_queue_ g then work_alarm_ g
                     else S (work_alarm_ g))
                    (with_remote_work_queue true (with_stopped true g))
                else with_stopped true g)
    by apply stop_context.
  assert (Hnew : new_actions w w1 =
                 Call_stop :: Stopped_exchange (stopped_ g) ::
                 (if outside
                  then Try_mark_active (negb (remote_work_queue_ g)) ::
                       (if negb (remote_work_queue_ g)
                        then [Trigger_work_alarm] else [])
                  else []))
    by (apply history_app_new, stop_history).
  split_all.
  - rewrite Hg1; destruct outside; reflexivity.
  - rewrite Hg1; destruct outside; reflexivity.
  - rewrite Hg1; subst wakes; destruct outside, (remote_work_queue_ g);
      reflexivity.
  - rewrite Hnew; subst wakes; destruct outside, (remote_work_queue_ g);
      cbn; split; intros H; try discriminate; auto;
      repeat (destruct H as [H | H]; try discriminate); contradiction.
  - rewrite Hnew; subst wakes; destruct outside, (remote_work_queue_ g);
      cbn; split; intros H; try discriminate; auto;
      repeat (destruct H as [H | H]; try discriminate); contradiction.
  - unfold objects; destruct (stop_frame in_loop_thread w) as [Hh Hr].
    fold w1 in Hh, Hr; rewrite Hh, Hr; fold g1.
    f_equal; f_equal.
    rewrite Hg1; destruct g as [? ? ? ? ? ? ? rq], outside, rq; reflexivity.
  - apply stop_twice.
  - apply history_app_new, stop_twice.
  - intros in_loop schedule final Hend.
    apply stop_interleaved; exact Hend.
Qed.

(** The overlap of C2 on a default-constructed context: the first thread
    does its exchange, the second runs [stop] to its end, then the first
    goes on. *)
Lemma stop_sets_flag_wakes_loop_and_is_idempotent_witness :
  let final :=
    run_schedule (fun _ => false) [true; false; true; true]
      (mkStopThreads (fun _ => AtExchange) fresh_world) in
  (forall t, point final t = Returned) /\
  objects (world final) = objects (exec (stop false) fresh_world).
Proof.
  split.
  - intros t; destruct t; reflexivity.
  - destruct (stop_sets_flag_wakes_loop_and_is_idempotent
                fresh_world false false)
      as (_ & _ & _ & _ & _ & _ & _ & _ & Hoverlap).
    apply (Hoverlap (fun _ => false) [true; false; true; true]).
    intros t; destruct t; reflexivity.
Defined.

(** ** Arenas *)

Lemma create_resources_world (n : nat) :
  forall w : World,
    exec (create_resources n) w =
    mkWorld
      (mkHeap (n + next_address (heap w))
         (rev (seq (next_address (heap w)) n) ++ live (heap w)))
      (with_memory_resources
         (rev (seq (next_address (heap w)) n) ++
          memory_resources_ (grpc_context w))
         (grpc_context w))
      (rpc w)
      (history w ++ map New_resource (seq (next_address (heap w)) n)).
Proof.
  induction n as [| n IH]; intros w.
  - destruct_world w; destruct h; cbn; rewrite app_nil_r; reflexivity.
  - cbn [create_resources]; rewrite exec_bind, exec_bind, IH.
    destruct_world w; destruct h as [next lv]; unfold new_resource, push_front;
      unfold_m; cbn [fst snd heap grpc_context rpc history next_address live
                       memory_resources_ with_memory_resources
                       work_alarm_ outstanding_work_ stopped_ shutdown_
                       multithreaded_ completion_queue_ remote_work_queue_].
    cbn [seq rev map].
    rewrite <- !app_assoc; cbn [app].
    rewrite Nat.add_succ_r; reflexivity.
Qed.

Lemma delete_resources_loop_world (fuel : nat) :
  forall w : World,
    (length (memory_resources_ (grpc_context w)) < fuel)%nat ->
    exec (delete_resources_loop fuel) w =
    mkWorld
      (mkHeap (next_address (heap w))
         (fold_left (fun l r => remove Nat.eq_dec r l)
            (memory_resources_ (grpc_context w)) (live (heap w))))
      (with_memory_resources [] (grpc_context w))
      (rpc w)
      (history w ++
       map Delete_resource (memory_resources_ (grpc_context w))).
Proof.
  induction fuel as [| fuel IH]; intros w Hlen; [inversion Hlen |].
  destruct_world w; destruct h as [next lv]; destruct mr as [| a mr].
  - cbn; rewrite app_nil_r; reflexivity.
  - cbn [delete_resources_loop]; rewrite exec_bind.
    change (eval empty _) with false; cbv iota.
    rewrite exec_bind, exec_seq, IH.
    + unfold pop_front, delete_resource; unfold_m; cbn.
      rewrite <- app_assoc; reflexivity.
    + cbn in *; lia.
Qed.

Lemma delete_resources_world (w : World) :
  exec delete_resources w =
  mkWorld
    (mkHeap (next_address (heap w))
       (fold_left (fun l r => remove Nat.eq_dec r l)
          (memory_resources_ (grpc_context w)) (live (heap w))))
    (with_memory_resources [] (grpc_context w))
    (rpc w)
    (history w ++ map Delete_resource (memory_resources_ (grpc_context w))).
Proof.
  unfold delete_resources; rewrite exec_bind.
  apply (delete_resources_loop_world _ w); cbn; lia.
Qed.

Lemma fold_remove_not_in (rs : list nat) :
  forall (l : list nat) (r : nat),
    In r rs ->
    ~ In r (fold_left (fun l r => remove Nat.eq_dec r l) rs l).
Proof.
  assert (Hkeep : forall rs l r,
             ~ In r l ->
             ~ In r (fold_left (fun l r => remove Nat.eq_dec r l) rs l)).
  { clear; induction rs as [| x rs IH]; intros l r Hn; cbn; [exact Hn |].
    apply IH; intros Hin; apply in_remove in Hin; tauto. }
  induction rs as [| x rs IH]; intros l r Hin; [contradiction |].
  cbn; destruct Hin as [-> | Hin].
  - apply Hkeep, remove_In.
  - apply IH; exact Hin.
Qed.

Lemma discard_events_world (ts : list Tag) :
  forall w : World,
    exec (discard_events ts) w =
    mkWorld (heap w) (grpc_context w) (rpc w)
      (history w ++ map CQ_discard ts).
Proof.
  induction ts as [| t ts IH]; intros w.
  - destruct w; cbn; rewrite app_nil_r; reflexivity.
  - cbn [discard_events]; rewrite exec_seq, IH.
    cbn; rewrite <- app_assoc; reflexivity.
Qed.

(** ** Destruction *)


Lemma drain_completion_queue_world (w : World) :
  exec drain_completion_queue w =
  mkWorld (heap w)
    (with_completion_queue
       (mkCompletionQueue (cq_shutdown (completion_queue_ (grpc_context w)))
          [])
       (grpc_context w))
    (rpc w)
    (history w ++
     map CQ_discard (cq_pending (completion_queue_ (grpc_context w)))).
Proof.
  unfold drain_completion_queue; rewrite exec_bind, exec_seq.
  change (exec get_context w) with w.
  rewrite discard_events_world; reflexivity.
Qed.

(** What the destructor does after its call of [stop]. *)
Lemma destruct_after_stop (with_asio : bool) (w : World) :
  exec (shutdown_store true ;;
        completion_queue_Shutdown ;;
        drain_completion_queue ;;
        when with_asio
          (execution_context_shutdown ;; execution_context_destroy) ;;
        delete_resources) w =
  mkWorld
    (mkHeap (next_address (heap w))
       (fold_left (fun l r => remove Nat.eq_dec r l)
          (memory_resources_ (grpc_context w)) (live (heap w))))
    (with_memory_resources []
       (with_completion_queue (mkCompletionQueue true [])
          (with_shutdown true (grpc_context w))))
    (rpc w)
    (history w ++
     [Shutdown_store; CQ_Shutdown] ++
     map CQ_discard (cq_pending (completion_queue_ (grpc_context w))) ++
     (if with_asio then [Asio_shutdown; Asio_destroy] else []) ++
     map Delete_resource (memory_resources_ (grpc_context w))).
Proof.
  rewrite !exec_seq, delete_resources_world.
  assert (Hasio : forall x : World,
             exec (when with_asio
                     (execution_context_shutdown ;;
                      execution_context_destroy)) x =
             mkWorld (heap x) (grpc_context x) (rpc x)
               (history x ++
                (if with_asio then [Asio_shutdown; Asio_destroy] else []))).
  { intros x; destruct x, with_asio; unfold_m; cbn;
      rewrite <- ?app_assoc, ?app_nil_r; reflexivity. }
  rewrite Hasio, drain_completion_queue_world.
  destruct_world w; destruct h as [next lv]; destruct cq as [sd pending].
  unfold_m; cbn; rewrite <- !app_assoc; reflexivity.
Qed.

Lemma destruct_world_eq (with_asio in_loop_thread : bool) (w : World) :
  exec (GrpcContext_destruct with_asio in_loop_thread) w =
  mkWorld
    (mkHeap (next_address (heap w))
       (fold_left (fun l r => remove Nat.eq_dec r l)
          (memory_resources_ (grpc_context w)) (live (heap w))))
    (with_memory_resources []
       (with_completion_queue (mkCompletionQueue true [])
          (with_shutdown true
             (grpc_context (exec (stop in_loop_thread) w)))))
    (rpc w)
    (history (exec (stop in_loop_thread) w) ++
     [Shutdown_store; CQ_Shutdown] ++
     map CQ_discard (cq_pending (completion_queue_ (grpc_context w))) ++
     (if with_asio then [Asio_shutdown; Asio_destroy] else []) ++
     map Delete_resource (memory_resources_ (grpc_context w))).
Proof.
  unfold GrpcContext_destruct; rewrite exec_seq, destruct_after_stop.
  destruct (stop_frame in_loop_thread w) as [-> ->].
  rewrite (stop_context in_loop_thread w); cbn zeta.
  destruct (grpc_context w) as [alarm n st sd mt cq mr rq]; cbn.
  destruct (negb st && negb in_loop_thread); reflexivity.
Qed.

Lemma In_map_inv {A B : Type} (f : A -> B) (l : list A) (b : B) :
  In b (map f l) -> exists a, b = f a.
Proof.
  intros H; apply in_map_iff in H; destruct H as (a & <- & _).
  exists a; reflexivity.
Qed.

Lemma stop_never_completes (in_loop_thread : bool) (w : World) (v : Outcome) :
  ~ In (On_done v) (new_actions w (exec (stop in_loop_thread) w)).
Proof.
  rewrite (history_app_new _ _ _ (stop_history in_loop_thread w)).
  destruct (negb (stopped_ (grpc_context w)) && negb in_loop_thread),
    (negb (remote_work_queue_ (grpc_context w))); cbn; intros H;
    repeat (destruct H as [H | H]; try discriminate); contradiction.
Qed.


(** ** Construction *)

Lemma construct_world (cq : CompletionQueue) (hint : nat) (w : World) :
  exec (GrpcContext_construct cq hint) w =
  mkWorld
    (mkHeap (hint + next_address (heap w))
       (rev (seq (next_address (heap w)) hint) ++ live (heap w)))
    (mkGrpcContext 0 0 false false (1 <? hint)%nat cq
       (rev (seq (next_address (heap w)) hint)) false)
    (rpc w)
    (history w ++ map New_resource (seq (next_address (heap w)) hint)).
Proof.
  unfold GrpcContext_construct; rewrite exec_seq, create_resources_world.
  destruct w; cbn; rewrite app_nil_r; reflexivity.
Qed.

(** C8: constructing a context with concurrency hint [N] creates exactly
    [N] arenas (the default constructor has [N = 1]) and sets the
    multithreaded flag if and only if [N > 1]; destroying the context
    deletes every arena that was created. *)
Theorem construction_creates_one_arena_per_hint :
  forall (w : World) (completion_queue : CompletionQueue) (N : nat)
         (with_asio in_loop_thread : bool),
    let created := seq (next_address (heap w)) N in
    let w1 := exec (GrpcContext_construct completion_queue N) w in
    let g1 := grpc_context w1 in
    let w2 := exec (GrpcContext_destruct with_asio in_loop_thread) w1 in
    (* N arenas, each a new allocation *)
    new_actions w w1 = map New_resource created /\
    memory_resources_ g1 = rev created /\
    length (memory_resources_ g1) = N /\
    NoDup (memory_resources_ g1) /\
    Forall (fun r => In r (live (heap w1))) created /\
    (* the flag *)
    multithreaded_ g1 = (1 <? N)%nat /\
    (multithreaded_ g1 = true <-> (N > 1)%nat) /\
    (* the other constructors *)
    exec (GrpcContext_with_hint N) w =
      exec (GrpcContext_construct new_completion_queue N) w /\
    exec GrpcContext_default w =
      exec (GrpcContext_construct new_completion_queue 1) w /\
    exec (GrpcContext_with_queue completion_queue) w =
      exec (GrpcContext_construct completion_queue 1) w /\
    memory_resources_ (grpc_context (exec GrpcContext_default w)) =
      [next_address (heap w)] /\
    multithreaded_ (grpc_context (exec GrpcContext_default w)) = false /\
    (* destruction deletes each of them, once *)
    filter (fun a => match a with Delete_resource _ => true | _ => false end)
      (new_actions w1 w2) = map Delete_resource (rev created) /\
    memory_resources_ (grpc_context w2) = [] /\
    Forall (fun r => ~ In r (live (heap w2))) created.
Proof.
  intros w cq N with_asio in_loop_thread created w1 g1 w2.
  assert (Hw1 : w1 = _) by apply construct_world.
  assert (Hg1 : memory_resources_ g1 = rev created)
    by (subst g1; rewrite Hw1; reflexivity).
  assert (Hw2 : w2 = _) by apply destruct_world_eq.
  split_all.
  - apply history_app_new; rewrite Hw1; reflexivity.
  - exact Hg1.
  - rewrite Hg1, length_rev; apply length_seq.
  - rewrite Hg1; apply NoDup_rev, seq_NoDup.
  - apply Forall_forall; intros r Hr; rewrite Hw1; cbn.
    apply in_or_app; left; rewrite <- in_rev; exact Hr.
  - subst g1; rewrite Hw1; reflexivity.
  - subst g1; rewrite Hw1; cbn [grpc_context multithreaded_].
    rewrite Nat.ltb_lt; reflexivity.
  - reflexivity.
  - reflexivity.
  - reflexivity.
  - unfold GrpcContext_default; rewrite construct_world; reflexivity.
  - unfold GrpcContext_default; rewrite construct_world; reflexivity.
  - erewrite history_app_new.
    2:{ rewrite Hw2; cbn [history]; rewrite stop_history.
        rewrite <- app_assoc; reflexivity. }
    fold g1; rewrite Hg1.
    rewrite !filter_app.
    assert (Hdel : forall l : list Resource,
               filter (fun a => match a with
                                | Delete_resource _ => true
                                | _ => false
                                end) (map Delete_resource l) =
               map Delete_resource l).
    { induction l as [| x l IH]; cbn; [| rewrite IH]; reflexivity. }
    assert (Hdis : forall l : list Tag,
               filter (fun a => match a with
                                | Delete_resource _ => true
                                | _ => false
                                end) (map CQ_discard l) = []).
    { induction l as [| x l IH]; cbn; [| rewrite IH]; reflexivity. }
    rewrite Hdel, Hdis.
    destruct (stopped_ g1), in_loop_thread, (remote_work_queue_ g1),
      with_asio; reflexivity.
  - rewrite Hw2; reflexivity.
  - apply Forall_forall; intros r Hr; rewrite Hw2; cbn [heap live].
    apply fold_remove_not_in; fold g1; rewrite Hg1, <- in_rev; exact Hr.
Qed.

(** ** Return value of the run loop entry points *)

Lemma process_work_from_eval {F : Type} `{LoopFunction F} (passes : nat)
  (f : F) :
  forall (processed : bool) (w : World),
    eval (process_work_from passes f processed) w =
    processed || existsb (has_processed f) (pass_results passes (invoke f) w).
Proof.
  induction passes as [| passes IH]; intros processed w.
  - cbn; rewrite orb_false_r; reflexivity.
  - cbn [process_work_from pass_results existsb].
    rewrite eval_bind, IH, orb_assoc; reflexivity.
Qed.

Lemma process_work_true_iff {F : Type} `{LoopFunction F} (passes : nat)
  (f : F) (w : World) :
  eval (process_work passes f) w = true <->
  exists r, In r (pass_results passes (invoke f) w) /\
            has_processed f r = true.
Proof.
  unfold process_work; rewrite process_work_from_eval; cbn [orb].
  apply existsb_exists.
Qed.

Lemma run_while_body_pass
  (do_one_if_not_stopped : gpr_timespec -> M DoOneResult)
  (condition : M bool) (w : World) :
  eval (run_while_body do_one_if_not_stopped condition) w =
    (if eval condition w
     then eval (do_one_if_not_stopped INFINITE_FUTURE) (exec condition w)
     else DoOneResult_empty) /\
  exec (run_while_body do_one_if_not_stopped condition) w =
    (if eval condition w
     then exec (do_one_if_not_stopped INFINITE_FUTURE) (exec condition w)
     else exec condition w).
Proof.
  unfold run_while_body; rewrite eval_bind, exec_bind.
  destruct (eval condition w); split; reflexivity.
Qed.

(** The passes of [run_while] are the calls of [do_one] under the
    condition, and an empty result for each pass whose condition was
    false. *)
Lemma run_while_passes
  (do_one_if_not_stopped : gpr_timespec -> M DoOneResult)
  (condition : M bool) (passes : nat) :
  forall w : World,
    existsb DoOneResult_bool
      (pass_results passes
         (run_while_body do_one_if_not_stopped condition) w) =
    existsb DoOneResult_bool
      (calls_while (do_one_if_not_stopped INFINITE_FUTURE) condition
         passes w).
Proof.
  induction passes as [| passes IH]; intros w; [reflexivity |].
  cbn [pass_results calls_while existsb].
  destruct (run_while_body_pass do_one_if_not_stopped condition w)
    as [-> ->].
  destruct (eval condition w); cbn [existsb]; rewrite IH; reflexivity.
Qed.

Lemma process_work_from_exec {F : Type} `{LoopFunction F} (passes : nat)
  (f : F) :
  forall (processed : bool) (w : World),
    exec (process_work_from passes f processed) w =
    match passes with
    | O => w
    | S passes' =>
        exec (process_work_from passes' f false) (exec (invoke f) w)
    end.
Proof.
  induction passes as [| passes IH]; intros processed w; [reflexivity |].
  cbn [process_work_from]; rewrite exec_bind.
  rewrite (IH (processed || has_processed f (eval (invoke f) w))).
  rewrite (IH false); reflexivity.
Qed.

Lemma run_while_world
  (do_one_if_not_stopped : gpr_timespec -> M DoOneResult)
  (condition : M bool) (passes : nat) :
  forall w : World,
    exec (run_while do_one_if_not_stopped condition passes) w =
    world_while (do_one_if_not_stopped INFINITE_FUTURE) condition passes w.
Proof.
  unfold run_while, process_work.
  induction passes as [| passes IH]; intros w; [reflexivity |].
  rewrite process_work_from_exec; cbn [world_while invoke
    GrpcContextLoopFunction_loop function_].
  destruct (run_while_body_pass do_one_if_not_stopped condition w)
    as [_ ->].
  destruct (eval condition w); apply IH.
Qed.


(** ** The automatic finish *)

Ltac unfold_rpc :=
  unfold client_initiate_finish, set_finished, set_writes_done, is_finished,
    is_writes_done, ok, on_done, self, register,
    responder_StartCall, responder_Finish, responder_Write,
    responder_WritesDone, responder_Read, responder_ReadInitialMetadata,
    client_context_TryCancel, take_event, take_Finish_event in *.

Lemma client_initiate_finish_world (tag : Tag) (w : World) :
  exec (client_initiate_finish tag) w =
  mkWorld (heap w)
    (with_completion_queue
       (mkCompletionQueue (cq_shutdown (completion_queue_ (grpc_context w)))
          (cq_pending (completion_queue_ (grpc_context w)) ++ [tag]))
       (with_outstanding_work
          (wrap_long (outstanding_work_ (grpc_context w) + 1))
          (grpc_context w)))
    (mkRPC true (writes_done_ (rpc w)) (status_ (rpc w)))
    (history w ++
     [Set_finished; Call_work_started;
      Fetch_add (outstanding_work_ (grpc_context w)); Finish tag]).
Proof.
  destruct_world w; unfold_rpc; unfold_m; cbn -[wrap_long].
  rewrite <- !app_assoc; reflexivity.
Qed.

(** C9: the automatic finish path marks the call finished, then
    increments the outstanding-work counter of the context through
    [work_started()], then registers the Finish tag with the responder;
    when the tag is registered, and so before its event can be delivered,
    the call is already marked finished and the unit of work is held, so
    that the context is not stopped when the step that failed gives its
    own unit back. *)
Theorem client_initiate_finish_order :
  forall (w : World) (tag : Tag) (in_loop_thread : bool),
    let n := outstanding_work_ (grpc_context w) in
    let pending := cq_pending (completion_queue_ (grpc_context w)) in
    let w' := exec (client_initiate_finish tag) w in
    let before := exec work_started (exec set_finished w) in
    (* the calls, in order *)
    new_actions w w' =
      [Set_finished; Call_work_started; Fetch_add n; Finish tag] /\
    w' = exec (responder_Finish tag) before /\
    (* the world in which the tag is registered *)
    finished_ (rpc before) = true /\
    outstanding_work_ (grpc_context before) = wrap_long (n + 1) /\
    cq_pending (completion_queue_ (grpc_context before)) = pending /\
    (* the world afterwards *)
    finished_ (rpc w') = true /\
    writes_done_ (rpc w') = writes_done_ (rpc w) /\
    status_ (rpc w') = status_ (rpc w) /\
    outstanding_work_ (grpc_context w') = wrap_long (n + 1) /\
    (LONG_MIN <= n < LONG_MAX ->
     outstanding_work_ (grpc_context w') = n + 1) /\
    cq_pending (completion_queue_ (grpc_context w')) = pending ++ [tag] /\
    stopped_ (grpc_context w') = stopped_ (grpc_context w) /\
    handler_invoked w w' = false /\
    (* the step that failed gives its own unit back: no idle stop *)
    (1 <= n < LONG_MAX ->
     let w'' := exec (work_finished in_loop_thread) w' in
     outstanding_work_ (grpc_context w'') = n /\
     is_stopped w'' = is_stopped w /\
     ~ In Call_stop (new_actions w' w'')).
Proof.
  intros w tag in_loop_thread n pending w' before.
  assert (Hw' : w' = _) by apply client_initiate_finish_world.
  assert (Hnew : new_actions w w' =
                 [Set_finished; Call_work_started; Fetch_add n; Finish tag])
    by (apply history_app_new; rewrite Hw'; reflexivity).
  split_all.
  - exact Hnew.
  - reflexivity.
  - destruct_world w; reflexivity.
  - destruct_world w; reflexivity.
  - destruct_world w; reflexivity.
  - rewrite Hw'; reflexivity.
  - rewrite Hw'; reflexivity.
  - rewrite Hw'; reflexivity.
  - rewrite Hw'; reflexivity.
  - intros Hn; rewrite Hw'; cbn -[wrap_long]; apply wrap_long_id.
    fold n; lia.
  - rewrite Hw'; reflexivity.
  - rewrite Hw'; reflexivity.
  - unfold handler_invoked; rewrite Hnew; reflexivity.
  - intros Hn w''.
    assert (Hcount : outstanding_work_ (grpc_context w') = n + 1).
    { rewrite Hw'; cbn -[wrap_long]; apply wrap_long_id; fold n.
      pose proof LONG_bounds; lia. }
    assert (Hw'' : w'' = decremented w').
    { subst w''; rewrite work_finished_world, Hcount.
      destruct (Z.eqb_spec 1 (n + 1)); [lia | reflexivity]. }
    split_all.
    + rewrite Hw''; unfold decremented.
      cbn [grpc_context outstanding_work_ with_outstanding_work].
      rewrite Hcount.
      replace (n + 1 - 1) with n by lia.
      apply wrap_long_id; pose proof LONG_bounds; lia.
    + rewrite Hw'', Hw'; reflexivity.
    + rewrite Hw''.
      rewrite (history_app_new w' (decremented w')
                 [Call_work_finished;
                  Fetch_sub (outstanding_work_ (grpc_context w'))] eq_refl).
      cbn; intros [H | [H | []]]; discriminate.
Qed.

(** C9 on a default-constructed context on which one step is in flight
    (it holds one unit of work): the automatic finish takes the counter
    from 1 to 2, and when the step gives its unit back the context is
    not stopped. *)
Lemma client_initiate_finish_order_witness :
  let w := exec work_started fresh_world in
  let w' := exec (client_initiate_finish (7%nat, 1%nat)) w in
  let w'' := exec (work_finished false) w' in
  1 <= outstanding_work_ (grpc_context w) < LONG_MAX /\
  outstanding_work_ (grpc_context w') = 2 /\
  outstanding_work_ (grpc_context w'') = 1 /\
  is_stopped w'' = false.
Proof.
  intros w w' w''.
  assert (Hn : 1 <= outstanding_work_ (grpc_context w) < LONG_MAX)
    by (vm_compute; split; [discriminate | reflexivity]).
  destruct (client_initiate_finish_order w (7%nat, 1%nat) false)
    as (_ & _ & _ & _ & _ & _ & _ & _ & _ & Hin & _ & _ & _ & Hback).
  destruct (Hback Hn) as (Hcount & Hstopped & _).
  refine (conj Hn (conj _ (conj Hcount Hstopped))).
  apply Hin; vm_compute; split; [discriminate | reflexivity].
Defined.

(** ** Writes *)

(** C6: a streaming write whose options have the last-message flag set
    moves the call to writes-done before it registers the tag of the
    write; a write without the flag leaves the writes-done state as it
    is.  This holds for the client-streaming and for the bidirectional
    write. *)
Theorem last_message_write_sets_writes_done :
  forall (w : World) (operation : nat) (tag : Tag) (req : Message)
         (options : WriteOptions),
    let last := is_last_message options in
    let pending := cq_pending (completion_queue_ (grpc_context w)) in
    let wc :=
      exec (WriteClientStreamingSenderImplementation.initiate
              operation req options) w in
    let wb :=
      exec (ClientWriteBidiStreamingSenderImplementation.initiate
              req options tag) w in
    let marked := exec set_writes_done w in
    (* client streaming *)
    new_actions w wc =
      (if last
       then [Set_writes_done; Write req options (self operation 1)]
       else [Write req options (self operation 0)]) /\
    wc = (if last
          then exec (responder_Write req options (self operation 1)) marked
          else exec (responder_Write req options (self operation 0)) w) /\
    writes_done_ (rpc wc) = (if last then true else writes_done_ (rpc w)) /\
    finished_ (rpc wc) = finished_ (rpc w) /\
    cq_pending (completion_queue_ (grpc_context wc)) =
      pending ++ [self operation (if last then 1 else 0)%nat] /\
    (* bidirectional streaming *)
    new_actions w wb =
      (if last
       then [Set_writes_done; Write req options tag]
       else [Write req options tag]) /\
    wb = (if last
          then exec (responder_Write req options tag) marked
          else exec (responder_Write req options tag) w) /\
    writes_done_ (rpc wb) = (if last then true else writes_done_ (rpc w)) /\
    finished_ (rpc wb) = finished_ (rpc w) /\
    cq_pending (completion_queue_ (grpc_context wb)) = pending ++ [tag] /\
    (* the state in which the tag of a last-message write is registered *)
    writes_done_ (rpc marked) = true /\
    cq_pending (completion_queue_ (grpc_context marked)) = pending.
Proof.
  intros w operation tag req options last pending wc wb marked.
  subst last pending wc wb marked.
  unfold WriteClientStreamingSenderImplementation.initiate,
    ClientWriteBidiStreamingSenderImplementation.initiate.
  split_all;
    try (apply history_app_new);
    destruct (is_last_message options); destruct_world w;
    unfold_rpc; unfold exec, when, modify_context, bind, ret, log,
      get_context, put_context, get_rpc, put_rpc;
    cbn; rewrite <- ?app_assoc; reflexivity.
Qed.

(** ** Cancellation *)

Lemma testbit_3 (k : Z) :
  Z.testbit 3 k = (k =? 0) || (k =? 1).
Proof.
  destruct k as [| p | p]; try reflexivity.
  destruct p as [p | p |]; try reflexivity; destruct p; reflexivity.
Qed.

Lemma testbit_1 (k : Z) : Z.testbit 1 k = (k =? 0).
Proof. destruct k as [| p | p]; try reflexivity; destruct p; reflexivity. Qed.

Lemma testbit_2 (k : Z) : Z.testbit 2 k = (k =? 1).
Proof.
  destruct k as [| p | p]; try reflexivity.
  destruct p as [p | p |]; try reflexivity; destruct p; reflexivity.
Qed.

(** A mask is disjoint from [type] exactly when no bit of the mask is set
    in [type]. *)
Lemma land_eqb_0 (type mask : Z) (bits : Z -> bool) (any : bool) :
  (forall k, Z.testbit mask k = bits k) ->
  (any = false -> forall k, 0 <= k -> Z.testbit type k && bits k = false) ->
  (any = true -> exists k, Z.testbit type k && bits k = true) ->
  (Z.land type mask =? 0) = negb any.
Proof.
  intros Hmask Hnone Hsome.
  destruct any; cbn [negb].
  - destruct (Hsome eq_refl) as (k & Hk).
    apply Z.eqb_neq; intros E.
    rewrite <- Hmask, <- Z.land_spec, E, Z.bits_0 in Hk; discriminate.
  - apply Z.eqb_eq, Z.bits_inj'; intros k Hk.
    rewrite Z.land_spec, Z.bits_0, Hmask; apply Hnone; auto.
Qed.

Lemma land_terminal_partial (type : Z) :
  (Z.land type
     (Z.lor cancellation_type.terminal cancellation_type.partial) =? 0) =
  negb (Z.testbit type 0 || Z.testbit type 1).
Proof.
  change (Z.lor cancellation_type.terminal cancellation_type.partial) with 3.
  apply (land_eqb_0 type 3 (fun k => (k =? 0) || (k =? 1))).
  - apply testbit_3.
  - intros H k Hk; apply orb_false_iff in H; destruct H as [B0 B1].
    destruct (Z.eqb_spec k 0) as [-> | ?]; [rewrite B0; reflexivity |].
    destruct (Z.eqb_spec k 1) as [-> | ?]; [rewrite B1; reflexivity |].
    apply andb_false_r.
  - intros H; apply orb_true_iff in H; destruct H as [B | B];
      [exists 0 | exists 1]; rewrite B; reflexivity.
Qed.

Lemma land_terminal (type : Z) :
  (Z.land type cancellation_type.terminal =? 0) = negb (Z.testbit type 0).
Proof.
  apply (land_eqb_0 type 1 (fun k => k =? 0)).
  - apply testbit_1.
  - intros B0 k Hk.
    destruct (Z.eqb_spec k 0) as [-> | ?]; [rewrite B0; reflexivity |].
    apply andb_false_r.
  - intros B; exists 0; rewrite B; reflexivity.
Qed.

Lemma land_partial (type : Z) :
  (Z.land type cancellation_type.partial =? 0) = negb (Z.testbit type 1).
Proof.
  apply (land_eqb_0 type 2 (fun k => k =? 1)).
  - apply testbit_2.
  - intros B1 k Hk.
    destruct (Z.eqb_spec k 1) as [-> | ?]; [rewrite B1; reflexivity |].
    apply andb_false_r.
  - intros B; exists 1; rewrite B; reflexivity.
Qed.

(** C10: called with a cancellation type, the cancellation function calls
    [TryCancel] on the client context if and only if the type has the
    terminal or the partial bit; a type with other bits only, such as
    total, does nothing; the call operator without argument always calls
    [TryCancel]. *)
Theorem cancellation_function_terminal_or_partial :
  forall (w : World) (type : Z),
    let has_bit := Z.testbit type 0 || Z.testbit type 1 in
    let w' := exec (ClientContextCancellationFunction.call_type type) w in
    let w0 := exec ClientContextCancellationFunction.call w in
    (* the bits *)
    Z.testbit cancellation_type.terminal 0 = true /\
    Z.testbit cancellation_type.partial 1 = true /\
    has_bit =
      negb (Z.land type cancellation_type.terminal =? 0) ||
      negb (Z.land type cancellation_type.partial =? 0) /\
    (* with a type *)
    new_actions w w' = (if has_bit then [TryCancel] else []) /\
    w' = (if has_bit then w0 else w) /\
    (In TryCancel (new_actions w w') <-> has_bit = true) /\
    (* without *)
    new_actions w w0 = [TryCancel] /\
    objects w0 = objects w /\
    (* total alone, and nothing at all *)
    exec (ClientContextCancellationFunction.call_type cancellation_type.total)
      w = w /\
    exec (ClientContextCancellationFunction.call_type cancellation_type.none)
      w = w /\
    exec (ClientContextCancellationFunction.call_type cancellation_type.all)
      w = w0.
Proof.
  intros w type has_bit w' w0.
  assert (Hw' : w' = if has_bit then w0 else w).
  { subst w' w0 has_bit.
    unfold ClientContextCancellationFunction.call_type.
    rewrite land_terminal_partial, negb_involutive.
    destruct (Z.testbit type 0 || Z.testbit type 1); reflexivity. }
  assert (Hw0 : new_actions w w0 = [TryCancel])
    by (apply history_app_new; reflexivity).
  assert (Hnone : new_actions w w = []).
  { unfold new_actions; apply skipn_all. }
  split_all.
  - reflexivity.
  - reflexivity.
  - subst has_bit; rewrite land_terminal, land_partial, !negb_involutive.
    reflexivity.
  - rewrite Hw'; destruct has_bit; assumption.
  - exact Hw'.
  - rewrite Hw'; destruct has_bit.
    + rewrite Hw0; cbn; intuition.
    + rewrite Hnone; cbn; intuition discriminate.
  - exact Hw0.
  - destruct w; reflexivity.
  - destruct w; reflexivity.
  - destruct w; reflexivity.
  - destruct w; reflexivity.
Qed.

(** ** Steps that fail *)

Ltac unfold_senders :=
  unfold ClientUnaryRequestSenderImplementation.initiate,
    ClientUnaryRequestSenderImplementation.done,
    GenericClientUnaryRequestSenderImplementation.initiate,
    GenericClientUnaryRequestSenderImplementation.done,
    ClientClientStreamingRequestSenderImplementation.done,
    ClientServerStreamingRequestSenderImplementation.done,
    ClientBidirectionalStreamingRequestSenderImplementation.done,
    GenericClientBidirectionalStreamingRequestSenderImplementation.done,
    ReadInitialMetadataSenderImplementation.done_0,
    ReadInitialMetadataSenderImplementation.done_1,
    ReadServerStreamingSenderImplementation.done_0,
    ReadServerStreamingSenderImplementation.done_1,
    WriteClientStreamingSenderImplementation.done_0,
    WriteClientStreamingSenderImplementation.done_1,
    WriteClientStreamingSenderImplementation.done_2,
    ClientFinishSenderImplementation.initiate,
    ClientFinishSenderImplementation.done_0,
    ClientFinishSenderImplementation.done_1,
    ClientReadBidiStreamingSenderImplementation.done,
    ClientWriteBidiStreamingSenderImplementation.done,
    ClientWritesDoneSenderImplementation.done in *.

Lemma client_initiate_finish_initiated (tag : Tag) (w : World) :
  finish_initiated w (exec (client_initiate_finish tag) w) = true /\
  handler_invoked w (exec (client_initiate_finish tag) w) = false.
Proof.
  unfold finish_initiated, handler_invoked.
  rewrite (history_app_new w (exec (client_initiate_finish tag) w)
             [Set_finished; Call_work_started;
              Fetch_add (outstanding_work_ (grpc_context w)); Finish tag])
    by (rewrite client_initiate_finish_world; reflexivity).
  rewrite client_initiate_finish_world; split; reflexivity.
Qed.

Lemma on_done_surfaces (v : Outcome) (w : World) :
  new_actions w (exec (on_done v) w) = [On_done v] /\
  objects (exec (on_done v) w) = objects w /\
  finish_initiated w (exec (on_done v) w) = false.
Proof.
  assert (H : new_actions w (exec (on_done v) w) = [On_done v])
    by (apply history_app_new; reflexivity).
  unfold finish_initiated; rewrite H; split_all.
  - reflexivity.
  - reflexivity.
  - apply andb_false_r.
Qed.

(** C3, as the code has it: when [done] observes [ok == false], the
    streaming start, read-initial-metadata, server-streaming read and
    client-streaming write steps initiate finish on the call instead of
    running the completion handler (the client-streaming write after a
    last message, and finish after writes-done, do so whatever [ok] is);
    the unary request has registered Finish when it was initiated.  The
    bidirectional-streaming read and write steps do not initiate finish:
    their [done] hands [ok] to the completion handler and touches nothing,
    and the writes-done step only marks the call writes-done before it
    does the same. *)
Theorem failed_steps_initiate_finish_except_bidirectional :
  forall (w : World) (operation : nat) (ok_ : bool) (status : Status)
         (response : Message) (tag : Tag),
    let finishes (m : M unit) (k : nat) :=
      exec m w = exec (client_initiate_finish (self operation k)) w /\
      finish_initiated w (exec m w) = true /\
      handler_invoked w (exec m w) = false in
    let hands_over (m : M unit) :=
      new_actions w (exec m w) = [On_done (Out_bool ok_)] /\
      objects (exec m w) = objects w /\
      finish_initiated w (exec m w) = false in
    finishes
      (ClientClientStreamingRequestSenderImplementation.done operation false)
      0%nat /\
    finishes
      (ClientServerStreamingRequestSenderImplementation.done operation false)
      0%nat /\
    finishes
      (ClientBidirectionalStreamingRequestSenderImplementation.done
         operation false) 0%nat /\
    finishes
      (GenericClientBidirectionalStreamingRequestSenderImplementation.done
         operation false) 0%nat /\
    finishes (ReadInitialMetadataSenderImplementation.done_0 operation false)
      1%nat /\
    finishes (ReadServerStreamingSenderImplementation.done_0 operation false)
      1%nat /\
    finishes (WriteClientStreamingSenderImplementation.done_0 operation false)
      2%nat /\
    finishes (WriteClientStreamingSenderImplementation.done_1 operation ok_)
      2%nat /\
    finishes (ClientFinishSenderImplementation.done_0 operation ok_) 1%nat /\
    (* bidirectional streaming *)
    hands_over (ClientReadBidiStreamingSenderImplementation.done
                  operation ok_) /\
    hands_over (ClientWriteBidiStreamingSenderImplementation.done
                  operation ok_) /\
    new_actions w
      (exec (ClientWritesDoneSenderImplementation.done operation ok_) w) =
      [Set_writes_done; On_done (Out_bool ok_)] /\
    (* unary *)
    new_actions w
      (exec (ClientUnaryRequestSenderImplementation.initiate response tag) w)
      = [StartCall None; Finish tag] /\
    new_actions w
      (exec (ClientUnaryRequestSenderImplementation.done status ok_) w) =
      [On_done (Out_status status)] /\
    new_actions w
      (exec (GenericClientUnaryRequestSenderImplementation.initiate
               response tag) w)
      = [StartCall None; Finish tag] /\
    new_actions w
      (exec (GenericClientUnaryRequestSenderImplementation.done status ok_) w)
      = [On_done (Out_status status)].
Proof.
  intros w operation ok_ status response tag finishes hands_over.
  assert (Hfin : forall k, finishes (client_initiate_finish (self operation k))
                             k).
  { intros k; split; [reflexivity |].
    apply client_initiate_finish_initiated. }
  split_all; try apply Hfin; try apply on_done_surfaces;
    apply history_app_new; destruct_world w;
    unfold_senders; unfold_rpc; unfold_m; cbn;
    rewrite <- ?app_assoc; reflexivity.
Qed.

(** C3 as it is stated fails: on a call that is not finished, the
    bidirectional read and the bidirectional write observe [ok == false]
    and initiate no finish; the failure goes to the completion handler
    and no tag is left with the completion queue. *)
Lemma bidirectional_failure_initiates_no_finish :
  let read_failed :=
    exec (ClientReadBidiStreamingSenderImplementation.done 0 false)
      fresh_world in
  let write_failed :=
    exec (ClientWriteBidiStreamingSenderImplementation.done 0 false)
      fresh_world in
  finished_ (rpc fresh_world) = false /\
  finish_initiated fresh_world read_failed = false /\
  finish_initiated fresh_world write_failed = false /\
  finished_ (rpc read_failed) = false /\
  finished_ (rpc write_failed) = false /\
  new_actions fresh_world read_failed = [On_done (Out_bool false)] /\
  new_actions fresh_world write_failed = [On_done (Out_bool false)] /\
  cq_pending (completion_queue_ (grpc_context read_failed)) = [] /\
  cq_pending (completion_queue_ (grpc_context write_failed)) = [].
Proof. repeat split. Qed.

(** ** Finishing twice *)

Lemma finish_again (operation : nat) (final : Status) (ok0 ok1 : bool)
  (w : World) :
  finished_ (rpc w) = true ->
  exec (finish operation final ok0 ok1) w =
  exec (on_done (Out_bool (Status_ok (status_ (rpc w))))) w.
Proof.
  intros Hfin; unfold finish; rewrite exec_bind.
  change (eval is_finished w) with (finished_ (rpc w)); rewrite Hfin.
  rewrite exec_bind; reflexivity.
Qed.

Lemma finish_first (operation : nat) (final : Status) (ok0 ok1 : bool)
  (w : World) :
  finished_ (rpc w) = false ->
  rpc (exec (finish operation final ok0 ok1) w) =
    mkRPC true (writes_done_ (rpc w)) final /\
  history (exec (finish operation final ok0 ok1) w) =
    history w ++
    (if writes_done_ (rpc w)
     then [Set_finished; Finish (self operation 1)]
     else [WritesDone (self operation 0); Set_finished; Call_work_started;
           Fetch_add (outstanding_work_ (grpc_context w));
           Finish (self operation 1)]) ++
    [On_done (Out_bool (Status_ok final))].
Proof.
  intros Hfin; destruct_world w; destruct r as [fin wd st].
  cbn in Hfin; subst fin.
  unfold finish, run_ClientFinishSender; unfold_senders; unfold_rpc.
  destruct wd; unfold_m; cbn; rewrite <- !app_assoc; split; reflexivity.
Qed.

(** C4: once finish has completed on a streaming call, a second finish
    runs the completion handler at once with the outcome that the first
    one delivered, and registers no tag with the completion queue. *)
Theorem second_finish_short_circuits :
  forall (w : World) (operation operation' : nat) (final final' : Status)
         (ok0 ok1 ok0' ok1' : bool),
    let w1 := exec (finish operation final ok0 ok1) w in
    let w2 := exec (finish operation' final' ok0' ok1') w1 in
    let outcome := Out_bool (Status_ok (status_ (rpc w1))) in
    (* the first finish has completed with [outcome] *)
    finished_ (rpc w1) = true /\
    (exists before, history w1 = before ++ [On_done outcome]) /\
    (finished_ (rpc w) = false ->
     status_ (rpc w1) = final /\
     filter is_Finish (new_actions w w1) = [Finish (self operation 1)]) /\
    (* the second *)
    new_actions w1 w2 = [On_done outcome] /\
    objects w2 = objects w1 /\
    cq_pending (completion_queue_ (grpc_context w2)) =
      cq_pending (completion_queue_ (grpc_context w1)) /\
    filter is_Finish (new_actions w1 w2) = [].
Proof.
  intros w operation operation' final final' ok0 ok1 ok0' ok1' w1 w2 outcome.
  assert (Hfirst : finished_ (rpc w1) = true /\
                   exists before, history w1 = before ++ [On_done outcome]).
  { subst outcome w1; destruct (finished_ (rpc w)) eqn:Hw.
    - rewrite finish_again by exact Hw; split; [exact Hw |].
      exists (history w); reflexivity.
    - destruct (finish_first operation final ok0 ok1 w Hw) as [Hrpc Hhist].
      rewrite Hrpc, Hhist; split; [reflexivity |].
      rewrite app_assoc; eexists; reflexivity. }
  destruct Hfirst as [Hfin Hlast].
  assert (Hw2 : w2 = exec (on_done outcome) w1)
    by (apply finish_again; exact Hfin).
  assert (Hnew : new_actions w1 w2 = [On_done outcome])
    by (rewrite Hw2; apply on_done_surfaces).
  split_all.
  - exact Hfin.
  - exact Hlast.
  - intros Hw.
    destruct (finish_first operation final ok0 ok1 w Hw) as [Hrpc Hhist].
    fold w1 in Hrpc, Hhist; split.
    + rewrite Hrpc; reflexivity.
    + rewrite (history_app_new _ _ _ Hhist).
      destruct (writes_done_ (rpc w)); reflexivity.
  - exact Hnew.
  - rewrite Hw2; apply on_done_surfaces.
  - rewrite Hw2; reflexivity.
  - rewrite Hnew; reflexivity.
Qed.

(** C4 on a call that is finished for the first time: started, not
    writes-done, final status CANCELLED (1); the second finish is asked
    for with another status and reports the first. *)
Lemma second_finish_short_circuits_witness :
  let w1 := exec (finish 3 (mkStatus 1) true true) fresh_world in
  let w2 := exec (finish 4 (mkStatus 0) true true) w1 in
  finished_ (rpc fresh_world) = false /\
  status_ (rpc w1) = mkStatus 1 /\
  filter is_Finish (new_actions fresh_world w1) = [Finish (3%nat, 1%nat)] /\
  new_actions w1 w2 = [On_done (Out_bool false)].
Proof.
  destruct (second_finish_short_circuits fresh_world 3 4 (mkStatus 1)
              (mkStatus 0) true true true true)
    as (_ & _ & Hfirst & Hsecond & _).
  destruct (Hfirst eq_refl) as [Hstatus Hone].
  cbv zeta; split_all.
  - reflexivity.
  - exact Hstatus.
  - exact Hone.
  - exact Hsecond.
Defined.

(** * Further properties *)

(** ** Sequences of work counting *)

Lemma work_calls_never_from_one (in_loop_thread : bool) (calls : list bool) :
  forall w : World,
    LONG_MIN <= outstanding_work_ (grpc_context w) <= LONG_MAX ->
    never_from_one (outstanding_work_ (grpc_context w)) calls = true ->
    objects (exec (work_calls in_loop_thread calls) w) =
      (heap w,
       with_outstanding_work
         (balance (outstanding_work_ (grpc_context w)) calls)
         (grpc_context w),
       rpc w) /\
    exists acts,
      history (exec (work_calls in_loop_thread calls) w) = history w ++ acts /\
      existsb is_Call_stop acts = false.
Proof.
  induction calls as [| c rest IH]; intros w Hrange Hheld.
  - split.
    + destruct_world w; reflexivity.
    + exists []; rewrite app_nil_r; split; reflexivity.
  - destruct c; cbn [work_calls never_from_one balance] in *;
      rewrite exec_seq.
    + apply andb_prop in Hheld; destruct Hheld as [Hlt Hheld].
      apply Z.ltb_lt in Hlt.
      assert (Hcount : outstanding_work_ (grpc_context (exec work_started w))
                       = outstanding_work_ (grpc_context w) + 1).
      { rewrite work_started_world; cbn -[wrap_long].
        apply wrap_long_id; lia. }
      destruct (IH (exec work_started w)) as (Hobj & acts & Hhist & Hno).
      * rewrite Hcount; lia.
      * rewrite Hcount; exact Hheld.
      * split.
        { rewrite Hobj, Hcount, work_started_world; reflexivity. }
        exists ([Call_work_started;
                 Fetch_add (outstanding_work_ (grpc_context w))] ++ acts).
        rewrite Hhist, work_started_world; cbn [history].
        rewrite <- app_assoc; split; [reflexivity | exact Hno].
    + apply andb_prop in Hheld; destruct Hheld as [Hheld Hrest].
      apply andb_prop in Hheld; destruct Hheld as [Hne Hgt].
      apply Z.ltb_lt in Hgt; apply negb_true_iff, Z.eqb_neq in Hne.
      assert (Hwf : exec (work_finished in_loop_thread) w = decremented w).
      { rewrite work_finished_world.
        destruct (Z.eqb_spec 1 (outstanding_work_ (grpc_context w)));
          [congruence | reflexivity]. }
      assert (Hcount : outstanding_work_ (grpc_context (decremented w))
                       = outstanding_work_ (grpc_context w) - 1).
      { cbn -[wrap_long]; apply wrap_long_id; lia. }
      rewrite Hwf.
      destruct (IH (decremented w)) as (Hobj & acts & Hhist & Hno).
      * rewrite Hcount; lia.
      * rewrite Hcount; exact Hrest.
      * split; [rewrite Hobj, Hcount; reflexivity |].
        exists ([Call_work_finished;
                 Fetch_sub (outstanding_work_ (grpc_context w))] ++ acts).
        rewrite Hhist; cbn [decremented history].
        rewrite <- app_assoc; split; [reflexivity | exact Hno].
Qed.

(** X1: in a sequence of [work_started()] and [work_finished()] calls in
    which no [work_finished()] finds the counter at one, [stop()] is never
    called and the stopped flag keeps its value, also when the counter
    passes through zero or ends at zero: reaching zero by an increment, or
    going below it, stops nothing.  The counter ends at its start value
    plus the starts minus the finishes. *)
Theorem work_finished_stops_only_from_one :
  forall (w : World) (in_loop_thread : bool) (calls : list bool),
    let n := outstanding_work_ (grpc_context w) in
    let w' := exec (work_calls in_loop_thread calls) w in
    LONG_MIN <= n <= LONG_MAX ->
    never_from_one n calls = true ->
    outstanding_work_ (grpc_context w') = balance n calls /\
    is_stopped w' = is_stopped w /\
    existsb is_Call_stop (new_actions w w') = false /\
    work_alarm_ (grpc_context w') = work_alarm_ (grpc_context w) /\
    remote_work_queue_ (grpc_context w') = remote_work_queue_ (grpc_context w).
Proof.
  intros w in_loop_thread calls n w' Hrange Hheld.
  destruct (work_calls_never_from_one in_loop_thread calls w Hrange Hheld)
    as (Hobj & acts & Hhist & Hno).
  fold w' in Hobj, Hhist; unfold objects in Hobj.
  injection Hobj as _ Hg _.
  rewrite (history_app_new _ _ _ Hhist); unfold is_stopped; rewrite Hg.
  split_all; try reflexivity; exact Hno.
Qed.

(** X1 on a default-constructed context: a [work_finished()] that comes
    before its [work_started()] takes the counter to -1 and back to 0,
    and the context is not stopped although no work is outstanding. *)
Lemma work_finished_stops_only_from_one_witness :
  let w' := exec (work_calls false [false; true]) fresh_world in
  outstanding_work_ (grpc_context w') = 0 /\ is_stopped w' = false.
Proof.
  destruct (work_finished_stops_only_from_one fresh_world false [false; true])
    as (Hcount & Hstopped & _).
  - vm_compute; split; discriminate.
  - reflexivity.
  - split; [exact Hcount | exact Hstopped].
Defined.

(** ** Threads on the thread-safe members *)

Lemma armed_count_set_nth (ts : list Thread) :
  forall (i : nat) (t t' : Thread),
    nth_error ts i = Some t ->
    (armed_count (set_nth i t' ts) + alarm_weight (armed t) =
     armed_count ts + alarm_weight (armed t'))%nat.
Proof.
  unfold armed_count.
  induction ts as [| x ts IH]; intros i t t' Hnth.
  - destruct i; discriminate.
  - destruct i as [| i]; cbn in Hnth.
    + injection Hnth as ->; cbn.
      destruct (armed t), (armed t'); cbn; lia.
    + specialize (IH i t t' Hnth); cbn.
      destruct (armed x); cbn; lia.
Qed.

(** What one access of a thread does to the alarm and to the mark of the
    remote queue: the alarm is set only by a thread that has taken the
    mark from inactive to active, and nothing clears the mark. *)
Lemma thread_step_alarm (t : Thread) (w : World) :
  let g := grpc_context w in
  let g' := grpc_context (exec (thread_step t) w) in
  let t' := eval (thread_step t) w in
  (remote_work_queue_ g = true -> remote_work_queue_ g' = true) /\
  (work_alarm_ g <= work_alarm_ g')%nat /\
  (alarm_weight (armed t') + work_alarm_ g'
   + alarm_weight (remote_work_queue_ g) =
   alarm_weight (armed t) + work_alarm_ g
   + alarm_weight (remote_work_queue_ g'))%nat.
Proof.
  destruct t as [b pc calls]; destruct_world w.
  destruct pc; [| | | destruct calls as [| [] rest]];
    unfold thread_step, stop_step; unfold_m; cbn -[wrap_long Z.eqb];
    destruct stopped, b, active; cbn -[wrap_long Z.eqb];
    try (destruct (1 =? n)); cbn; split_all; auto; lia.
Qed.

(** The same over a pool, however the threads take turns. *)
Lemma run_pool_alarm (a0 : nat) (active0 : bool) (schedule : list nat) :
  forall p : Pool,
    let g := grpc_context (pool_world p) in
    (active0 = true -> remote_work_queue_ g = true) ->
    (a0 <= work_alarm_ g)%nat ->
    (armed_count (threads p) + work_alarm_ g + alarm_weight active0 =
     a0 + alarm_weight (remote_work_queue_ g))%nat ->
    let g' := grpc_context (pool_world (run_pool schedule p)) in
    (active0 = true -> remote_work_queue_ g' = true) /\
    (a0 <= work_alarm_ g')%nat /\
    (armed_count (threads (run_pool schedule p)) + work_alarm_ g'
     + alarm_weight active0 =
     a0 + alarm_weight (remote_work_queue_ g'))%nat.
Proof.
  induction schedule as [| i rest IH]; intros p g Hmark Hmono Hsum.
  - cbn; auto.
  - cbn [run_pool fold_left].
    fold (run_pool rest (pool_step i p)).
    apply IH; unfold pool_step;
      destruct (nth_error (threads p) i) as [t |] eqn:Hnth; auto;
      cbn [pool_world threads];
      destruct (thread_step_alarm t (pool_world p)) as (Hkeep & Hle & Heq);
      unfold exec, eval in Hkeep, Hle, Heq.
    + intros H; apply Hkeep, Hmark, H.
    + subst g; lia.
    + pose proof (armed_count_set_nth (threads p) i t
                    (fst (thread_step t (pool_world p))) Hnth).
      subst g; lia.
Qed.

(** A thread on its own makes its calls as the member functions make
    them: the accesses of [thread_step] are those of [stop], [reset],
    [work_started] and [work_finished]. *)
Lemma thread_alone_call (b : bool) (c : Call) (rest : list Call) (w : World) :
  exists steps,
    thread_alone steps (mkThread b Returned (c :: rest)) w =
    (mkThread b Returned rest, exec (do_call b c) w).
Proof.
  destruct c; destruct_world w.
  - destruct stopped, b, active;
      first [ exists 1%nat; reflexivity
            | exists 2%nat; reflexivity
            | exists 3%nat; reflexivity ].
  - exists 1%nat; reflexivity.
  - exists 1%nat; reflexivity.
  - destruct (1 =? n) eqn:E.
    + destruct stopped, b, active;
        first [ exists 2%nat; cbn -[wrap_long Z.eqb]; unfold_m;
                cbn -[wrap_long Z.eqb]; rewrite E; reflexivity
              | exists 3%nat; cbn -[wrap_long Z.eqb]; unfold_m;
                cbn -[wrap_long Z.eqb]; rewrite E; reflexivity
              | exists 4%nat; cbn -[wrap_long Z.eqb]; unfold_m;
                cbn -[wrap_long Z.eqb]; rewrite E; reflexivity ].
    + exists 1%nat; cbn -[wrap_long Z.eqb]; unfold_m;
        cbn -[wrap_long Z.eqb]; rewrite E; reflexivity.
Qed.

Lemma thread_alone_add (n m : nat) :
  forall (t : Thread) (w : World),
    thread_alone (n + m) t w =
    thread_alone m (eval (thread_alone n t) w) (exec (thread_alone n t) w).
Proof.
  induction n as [| n IH]; intros t w; [reflexivity |].
  cbn [Nat.add thread_alone]; unfold exec, eval, bind.
  destruct (thread_step t w) as [t1 w1]; apply IH.
Qed.

Lemma thread_alone_calls (b : bool) (calls : list Call) :
  forall w : World,
    exists steps,
      thread_alone steps (mkThread b Returned calls) w =
      (mkThread b Returned [], exec (do_calls b calls) w).
Proof.
  induction calls as [| c rest IH]; intros w.
  - exists 0%nat; reflexivity.
  - destruct (thread_alone_call b c rest w) as (n & Hn).
    destruct (IH (exec (do_call b c) w)) as (m & Hm).
    exists (n + m)%nat.
    rewrite thread_alone_add; unfold exec at 1, eval at 1; rewrite Hn.
    cbn [fst snd do_calls]; rewrite Hm, exec_seq; reflexivity.
Qed.

Lemma armed_count_Returned (ts : list Thread) :
  Forall (fun t => at_point t = Returned) ts -> armed_count ts = 0%nat.
Proof.
  unfold armed_count; induction 1 as [| t ts Ht _ IH]; [reflexivity |].
  cbn; unfold armed; rewrite Ht; exact IH.
Qed.

(** X2: however many threads call [stop()], [reset()], [work_started()]
    and [work_finished()], and however their accesses to the context
    interleave, the work alarm is set at most once, and not at all when
    the remote queue is already marked active: [reset()] lets a later
    [stop()] win the exchange again, but nothing here unmarks the queue,
    so [try_mark_active()] succeeds only once.  A thread that runs alone
    makes its calls exactly as the member functions do. *)
Theorem alarm_set_at_most_once :
  forall (ts : list Thread) (schedule : list nat) (w : World),
    Forall (fun t => at_point t = Returned) ts ->
    let g := grpc_context w in
    let final := run_pool schedule (mkPool ts w) in
    let g' := grpc_context (pool_world final) in
    (work_alarm_ g <= work_alarm_ g' <= S (work_alarm_ g))%nat /\
    (remote_work_queue_ g = true ->
     work_alarm_ g' = work_alarm_ g /\ remote_work_queue_ g' = true) /\
    (work_alarm_ g' = S (work_alarm_ g) ->
     remote_work_queue_ g = false /\ remote_work_queue_ g' = true) /\
    (forall (b : bool) (calls : list Call),
       exists steps,
         thread_alone steps (mkThread b Returned calls) w =
         (mkThread b Returned [], exec (do_calls b calls) w)).
Proof.
  intros ts schedule w Hts g final g'.
  destruct (run_pool_alarm (work_alarm_ g) (remote_work_queue_ g) schedule
              (mkPool ts w)) as (Hmark & Hmono & Hsum).
  - auto.
  - exact (le_n _).
  - cbn [threads pool_world]; rewrite (armed_count_Returned ts Hts).
    reflexivity.
  - fold final in Hmark, Hmono, Hsum; fold g' in Hmark, Hmono, Hsum.
    split_all.
    + exact Hmono.
    + destruct (remote_work_queue_ g), (remote_work_queue_ g');
        cbn in Hsum; lia.
    + intros Hactive; specialize (Hmark Hactive).
      rewrite Hactive, Hmark in Hsum; cbn in Hsum; split; [lia | exact Hmark].
    + intros Hset.
      destruct (remote_work_queue_ g) eqn:Ha.
      * specialize (Hmark eq_refl); rewrite Hmark in Hsum; cbn in Hsum; lia.
      * destruct (remote_work_queue_ g'); cbn in Hsum; [auto | lia].
    + intros b calls; apply thread_alone_calls.
Qed.

(** X2 with three threads on a default-constructed context: two call
    [stop()] from outside the loop, the third calls [reset()] between
    their exchanges, so that both find the flag clear; the alarm is set
    once. *)
Lemma alarm_set_at_most_once_witness :
  let ts := [mkThread false Returned [Do_stop];
             mkThread false Returned [Do_stop];
             mkThread false Returned [Do_reset]] in
  let final :=
    run_pool [0; 2; 1; 0; 1; 0; 1]%nat (mkPool ts fresh_world) in
  Forall (fun t => at_point t = Returned) ts /\
  Forall (fun t => at_point t = Returned /\ todo t = []) (threads final) /\
  work_alarm_ (grpc_context (pool_world final)) = 1%nat /\
  (work_alarm_ (grpc_context fresh_world)
   <= work_alarm_ (grpc_context (pool_world final))
   <= S (work_alarm_ (grpc_context fresh_world)))%nat.
Proof.
  intros ts final.
  assert (Hts : Forall (fun t => at_point t = Returned) ts)
    by (repeat constructor).
  destruct (alarm_set_at_most_once ts [0; 2; 1; 0; 1; 0; 1]%nat fresh_world
              Hts) as (Hbound & _).
  refine (conj Hts (conj _ (conj eq_refl Hbound))).
  repeat constructor.
Defined.

(** ** The heap across construction and destruction *)

Lemma fold_remove_filter (rs : list nat) :
  forall l : list nat,
    fold_left (fun l r => remove Nat.eq_dec r l) rs l =
    filter (fun a => negb (existsb (Nat.eqb a) rs)) l.
Proof.
  induction rs as [| r rs IH]; intros l; cbn [fold_left existsb].
  - cbn; induction l as [| x l IHl]; cbn; [| rewrite <- IHl]; reflexivity.
  - rewrite IH; clear IH.
    induction l as [| x l IHl]; cbn [remove filter]; [reflexivity |].
    destruct (Nat.eq_dec r x) as [-> | Hne].
    + rewrite Nat.eqb_refl; cbn [orb negb]; exact IHl.
    + replace (x =? r)%nat with false
        by (symmetry; apply Nat.eqb_neq; congruence).
      cbn [orb filter]; rewrite IHl; reflexivity.
Qed.

Lemma existsb_eqb_In (a : nat) (rs : list nat) :
  existsb (Nat.eqb a) rs = true <-> In a rs.
Proof.
  rewrite existsb_exists; split.
  - intros (x & Hin & Heq); apply Nat.eqb_eq in Heq; subst; exact Hin.
  - intros Hin; exists a; split; [exact Hin | apply Nat.eqb_refl].
Qed.

Lemma filter_fresh (rs l : list nat) :
  (forall a, In a l -> ~ In a rs) ->
  filter (fun a => negb (existsb (Nat.eqb a) rs)) (rs ++ l) = l.
Proof.
  intros Hfresh; rewrite filter_app.
  replace (filter (fun a => negb (existsb (Nat.eqb a) rs)) rs) with (@nil nat).
  - cbn [app]; induction l as [| x l IH]; [reflexivity |].
    cbn [filter].
    destruct (existsb (Nat.eqb x) rs) eqn:E.
    + apply existsb_eqb_In in E; exfalso; apply (Hfresh x); cbn; auto.
    + cbn [negb]; rewrite IH; [reflexivity |].
      intros a Ha; apply Hfresh; cbn; auto.
  - symmetry.
    assert (H : forall l', (forall a, In a l' -> In a rs) ->
                filter (fun a => negb (existsb (Nat.eqb a) rs)) l' = []).
    { induction l' as [| x l' IH]; intros Hsub; [reflexivity |].
      cbn [filter].
      replace (existsb (Nat.eqb x) rs) with true
        by (symmetry; apply existsb_eqb_In, Hsub; cbn; auto).
      cbn [negb]; apply IH; intros a Ha; apply Hsub; cbn; auto. }
    apply H; auto.
Qed.

(** X3: the destructor deletes the arenas of the context and nothing
    else: an address is live afterwards exactly when it was live before
    and is not one of the arenas.  Hence, on a heap whose live addresses
    all lie below the next address to be handed out, constructing a
    context with any concurrency hint and destroying it gives the live
    set back as it was. *)
Theorem destruction_frees_exactly_the_arenas :
  forall (w : World) (completion_queue : CompletionQueue) (N : nat)
         (with_asio in_loop_thread : bool),
    let destroyed := exec (GrpcContext_destruct with_asio in_loop_thread) w in
    let round_trip :=
      exec (GrpcContext_construct completion_queue N ;;
            GrpcContext_destruct with_asio in_loop_thread) w in
    (forall a,
       In a (live (heap destroyed)) <->
       In a (live (heap w)) /\ ~ In a (memory_resources_ (grpc_context w))) /\
    next_address (heap destroyed) = next_address (heap w) /\
    ((forall a, In a (live (heap w)) -> (a < next_address (heap w))%nat) ->
     live (heap round_trip) = live (heap w) /\
     next_address (heap round_trip) = (N + next_address (heap w))%nat).
Proof.
  intros w cq N with_asio in_loop_thread destroyed round_trip.
  split_all.
  - intros a; subst destroyed; rewrite destruct_world_eq; cbn [heap live].
    rewrite fold_remove_filter, filter_In, negb_true_iff.
    rewrite <- not_true_iff_false, existsb_eqb_In; reflexivity.
  - subst destroyed; rewrite destruct_world_eq; reflexivity.
  - intros Hbelow; subst round_trip.
    rewrite exec_seq, destruct_world_eq, construct_world.
    cbn [heap live next_address grpc_context memory_resources_].
    split; [| reflexivity].
    rewrite fold_remove_filter; apply filter_fresh.
    intros a Ha Hin; apply in_rev, in_seq in Hin.
    specialize (Hbelow a Ha); lia.
Qed.

(** X3 on the heap that holds the arena of a default-constructed context:
    a second context with four arenas comes and goes, the first arena
    stays live. *)
Lemma destruction_frees_exactly_the_arenas_witness :
  live (heap (exec (GrpcContext_construct new_completion_queue 4 ;;
                    GrpcContext_destruct false false) fresh_world))
  = [0%nat].
Proof.
  destruct (destruction_frees_exactly_the_arenas fresh_world
              new_completion_queue 4 false false) as (_ & _ & Hround).
  destruct Hround as [Hlive _].
  - intros a [<- | []]; repeat constructor.
  - exact Hlive.
Defined.

(** ** Every step of every sender *)

Lemma skipn_length_app {A : Type} (l m : list A) :
  skipn (length l) (l ++ m) = m.
Proof.
  rewrite skipn_app, skipn_all, Nat.sub_diag; reflexivity.
Qed.

Ltac run_sender_step :=
  unfold run_step; unfold_senders; unfold_rpc;
  unfold exec, eval, new_actions, when, work_started,
    outstanding_work_fetch_add, modify_context, bind, ret, log,
    get_context, put_context, get_rpc, put_rpc;
  cbn -[wrap_long skipn length];
  rewrite <- ?app_assoc, ?skipn_length_app;
  cbn -[wrap_long].

(** The world after a step is computed once, in the body of the local
    definition [w'], and the statement is evaluated on the result. *)
Ltac sender_step_cases s w w' :=
  destruct_world w;
  match goal with r : RPC |- _ => destruct r as [? [] ?] end;
  destruct s as [[] ? ? | [] ? ? | [] ? | [] ? [] | ? | ? [] | ? ?
                | ? ? | ? [] | ? ? | ? ? [? []] | ? [] | ? ? | ? ?
                | ? | ? ? | ? ? | ? ? | ? ? | ? [? []] ? | ? ?
                | ? | ? ?];
  cbv [run_step
       ClientUnaryRequestSenderImplementation.initiate
       ClientUnaryRequestSenderImplementation.done
       GenericClientUnaryRequestSenderImplementation.initiate
       GenericClientUnaryRequestSenderImplementation.done
       ClientClientStreamingRequestSenderImplementation.initiate
       ClientClientStreamingRequestSenderImplementation.done
       ClientServerStreamingRequestSenderImplementation.initiate
       ClientServerStreamingRequestSenderImplementation.done
       ClientBidirectionalStreamingRequestSenderImplementation.initiate
       ClientBidirectionalStreamingRequestSenderImplementation.done
       GenericClientBidirectionalStreamingRequestSenderImplementation.initiate
       GenericClientBidirectionalStreamingRequestSenderImplementation.done
       ReadInitialMetadataSenderImplementation.initiate
       ReadInitialMetadataSenderImplementation.done_0
       ReadInitialMetadataSenderImplementation.done_1
       ReadServerStreamingSenderImplementation.initiate
       ReadServerStreamingSenderImplementation.done_0
       ReadServerStreamingSenderImplementation.done_1
       WriteClientStreamingSenderImplementation.initiate
       WriteClientStreamingSenderImplementation.done_0
       WriteClientStreamingSenderImplementation.done_1
       WriteClientStreamingSenderImplementation.done_2
       ClientFinishSenderImplementation.initiate
       ClientFinishSenderImplementation.done_0
       ClientFinishSenderImplementation.done_1
       ClientReadBidiStreamingSenderImplementation.initiate
       ClientReadBidiStreamingSenderImplementation.done
       ClientWriteBidiStreamingSenderImplementation.initiate
       ClientWriteBidiStreamingSenderImplementation.done
       ClientWritesDoneSenderImplementation.initiate
       ClientWritesDoneSenderImplementation.done
       client_initiate_finish set_finished set_writes_done is_finished
       is_writes_done ok on_done self register is_last_message
       responder_StartCall responder_Finish responder_Write
       responder_WritesDone responder_Read responder_ReadInitialMetadata
       exec when work_started outstanding_work_fetch_add modify_context
       bind ret log get_context put_context get_rpc put_rpc
       with_completion_queue with_outstanding_work
       heap grpc_context rpc history fst snd
       work_alarm_ outstanding_work_ stopped_ shutdown_ multithreaded_
       completion_queue_ memory_resources_ remote_work_queue_
       cq_shutdown cq_pending finished_ writes_done_ status_ last_message_]
    in (value of w');
  unfold new_actions in *; subst w';
  cbn [history heap grpc_context rpc] in *;
  rewrite <- ?app_assoc, ?skipn_length_app in *;
  cbn -[wrap_long].

(** X4: every [initiate] and every [done] of every sender either leaves
    exactly one tag with the completion queue and runs no completion
    handler, or runs the completion handler exactly once and leaves no
    tag: a step is never completed twice and never left without a pending
    event.  An [initiate] always does the former. *)
Theorem sender_step_registers_or_completes :
  forall (s : SenderStep) (w : World),
    let w' := exec (run_step s) w in
    let acts := new_actions w w' in
    cq_pending (completion_queue_ (grpc_context w')) =
      cq_pending (completion_queue_ (grpc_context w)) ++ registered_tags acts /\
    (length (registered_tags acts) + handlers_run acts = 1)%nat /\
    (alarm_weight (is_initiate s) <= length (registered_tags acts))%nat /\
    heap w' = heap w.
Proof.
  intros s w w' acts; subst acts.
  sender_step_cases s w w'; split_all;
    try reflexivity; try (rewrite app_nil_r; reflexivity);
    cbn; lia.
Qed.

(** X5: in the senders with numbered sub-states (read-initial-metadata,
    server-streaming read, client-streaming write, finish), a [done] of
    sub-state [k] registers, if anything, a tag of its own operation with
    a sub-state above [k] and at most 2; so a step of these senders goes
    through at most three events before its handler runs. *)
Theorem numbered_done_registers_a_later_substate :
  forall (s : SenderStep) (w : World) (operation k : nat),
    numbered_done s = Some (operation, k) ->
    Forall (fun t => fst t = operation /\ (k < snd t <= 2)%nat)
      (registered_tags (new_actions w (exec (run_step s) w))).
Proof.
  intros s w operation k Hs.
  set (w' := exec (run_step s) w).
  sender_step_cases s w w'; cbn in Hs; try discriminate;
    injection Hs as <- <-; repeat constructor.
Qed.

(** X5 for a client-streaming write that failed: its [done] of sub-state 0
    registers sub-state 2. *)
Lemma numbered_done_registers_a_later_substate_witness :
  registered_tags
    (new_actions fresh_world
       (exec (run_step (ClientWrite_done_0 5 false)) fresh_world))
  = [(5%nat, 2%nat)] /\
  Forall (fun t => fst t = 5%nat /\ (0 < snd t <= 2)%nat)
    (registered_tags
       (new_actions fresh_world
          (exec (run_step (ClientWrite_done_0 5 false)) fresh_world))).
Proof.
  split; [reflexivity |].
  apply (numbered_done_registers_a_later_substate
           (ClientWrite_done_0 5 false) fresh_world 5 0).
  reflexivity.
Defined.

(** X6: the [done] of a streaming start registers the Finish of its
    automatic finish under the tag of the operation itself, so the event
    of that Finish comes back to the same [done].  With [ok] it hands the
    call over, then marked finished; with not-ok again it issues Finish on
    the responder a second time and takes a second unit of work. *)
Theorem start_done_is_reentered_by_its_finish :
  forall (kind : StartKind) (operation : nat) (w : World),
    let n := outstanding_work_ (grpc_context w) in
    let failed := exec (run_step (Start_done kind operation false)) w in
    let handed := exec (run_step (Start_done kind operation true)) failed in
    let again := exec (run_step (Start_done kind operation false)) failed in
    registered_tags (new_actions w failed) = [(operation, 0%nat)] /\
    handlers_run (new_actions w failed) = 0%nat /\
    new_actions failed handed = [On_done Out_rpc] /\
    finished_ (rpc handed) = true /\
    objects handed = objects failed /\
    filter is_Finish (new_actions w again) =
      [Finish (operation, 0%nat); Finish (operation, 0%nat)] /\
    outstanding_work_ (grpc_context again) = wrap_long (wrap_long (n + 1) + 1) /\
    handlers_run (new_actions w again) = 0%nat.
Proof.
  intros kind operation w n failed handed again.
  assert (Hfalse : forall x,
             exec (run_step (Start_done kind operation false)) x =
             exec (client_initiate_finish (operation, 0%nat)) x)
    by (intros x; destruct kind; reflexivity).
  assert (Htrue : forall x,
             exec (run_step (Start_done kind operation true)) x =
             exec (on_done Out_rpc) x)
    by (intros x; destruct kind; reflexivity).
  assert (Hfailed : history failed =
                    history w ++
                    [Set_finished; Call_work_started; Fetch_add n;
                     Finish (operation, 0%nat)]).
  { subst failed; rewrite Hfalse, client_initiate_finish_world.
    reflexivity. }
  assert (Hcount : outstanding_work_ (grpc_context failed)
                   = wrap_long (n + 1)).
  { subst failed; rewrite Hfalse, client_initiate_finish_world.
    reflexivity. }
  assert (Hagain : history again =
                   history failed ++
                   [Set_finished; Call_work_started;
                    Fetch_add (wrap_long (n + 1));
                    Finish (operation, 0%nat)]).
  { subst again; rewrite Hfalse, client_initiate_finish_world.
    cbn [history]; rewrite Hcount; reflexivity. }
  rewrite Hfailed, <- app_assoc in Hagain.
  rewrite (history_app_new _ _ _ Hfailed), (history_app_new _ _ _ Hagain).
  split_all; try reflexivity.
  - subst handed; rewrite Htrue; apply on_done_surfaces.
  - subst handed; rewrite Htrue.
    subst failed; rewrite Hfalse, client_initiate_finish_world; reflexivity.
  - subst handed; rewrite Htrue; apply on_done_surfaces.
  - subst again; rewrite Hfalse, client_initiate_finish_world.
    cbn [grpc_context outstanding_work_ with_completion_queue
           with_outstanding_work].
    rewrite Hcount; reflexivity.
Qed.

(** X7: no step of any sender takes a call out of the finished or the
    writes-done state or touches its status, and none touches the context
    beyond the completion queue and the work counter; the counter goes up
    by one exactly in a [done] that registers a tag (the automatic
    finish), and never in an [initiate]. *)
Theorem sender_step_keeps_marks_and_counts_work :
  forall (s : SenderStep) (w : World),
    let g := grpc_context w in
    let w' := exec (run_step s) w in
    let g' := grpc_context w' in
    let acts := new_actions w w' in
    let finishing :=
      negb (is_initiate s) && negb (length (registered_tags acts) =? 0)%nat in
    implb (finished_ (rpc w)) (finished_ (rpc w')) = true /\
    implb (writes_done_ (rpc w)) (writes_done_ (rpc w')) = true /\
    status_ (rpc w') = status_ (rpc w) /\
    existsb is_Call_work_started acts = finishing /\
    outstanding_work_ g' =
      (if finishing then wrap_long (outstanding_work_ g + 1)
       else outstanding_work_ g) /\
    implb finishing (finished_ (rpc w')) = true /\
    g' = with_completion_queue (completion_queue_ g')
           (with_outstanding_work (outstanding_work_ g') g) /\
    cq_shutdown (completion_queue_ g') = cq_shutdown (completion_queue_ g).
Proof.
  intros s w g w' g' acts finishing; subst finishing acts g' g.
  sender_step_cases s w w'; split_all; try reflexivity;
    match goal with
    | |- implb ?b _ = true => destruct b; reflexivity
    end.
Qed.

(** ** Writes-done and finish *)

Lemma finish_initiate_world (operation : nat) (x : World) :
  history (exec (ClientFinishSenderImplementation.initiate operation) x) =
    history x ++
    (if writes_done_ (rpc x)
     then [Set_finished; Finish (self operation 1)]
     else [WritesDone (self operation 0)]) /\
  finished_ (rpc (exec (ClientFinishSenderImplementation.initiate operation)
                    x)) =
    writes_done_ (rpc x) || finished_ (rpc x).
Proof.
  destruct_world x; destruct r as [fin [] st];
    unfold ClientFinishSenderImplementation.initiate; unfold_rpc; unfold_m;
    cbn; rewrite <- ?app_assoc; split; reflexivity.
Qed.

(** X8: the finish step issues WritesDone on the responder only when the
    call is not marked writes-done; otherwise it marks the call finished
    and registers Finish at once.  After a writes-done step has completed
    (whatever its outcome), and after a bidirectional or client-streaming
    write has been initiated with the last-message flag, the call is
    marked, so a finish that follows issues no second WritesDone. *)
Theorem finish_issues_no_second_writes_done :
  forall (w : World) (operation operation' : nat) (tag : Tag)
         (req : Message) (flags : Z) (ok_ : bool),
    let finish_from x :=
      new_actions x
        (exec (ClientFinishSenderImplementation.initiate operation') x) in
    let last := mkWriteOptions flags true in
    let after_writes_done :=
      exec (ClientWritesDoneSenderImplementation.done operation ok_) w in
    let after_bidi_write :=
      exec (ClientWriteBidiStreamingSenderImplementation.initiate
              req last tag) w in
    let after_client_write :=
      exec (WriteClientStreamingSenderImplementation.initiate
              operation req last) w in
    finish_from w =
      (if writes_done_ (rpc w)
       then [Set_finished; Finish (self operation' 1)]
       else [WritesDone (self operation' 0)]) /\
    finished_
      (rpc (exec (ClientFinishSenderImplementation.initiate operation') w)) =
      writes_done_ (rpc w) || finished_ (rpc w) /\
    finish_from after_writes_done =
      [Set_finished; Finish (self operation' 1)] /\
    finish_from after_bidi_write =
      [Set_finished; Finish (self operation' 1)] /\
    finish_from after_client_write =
      [Set_finished; Finish (self operation' 1)] /\
    existsb is_WritesDone (finish_from after_writes_done) = false /\
    existsb is_WritesDone (finish_from after_bidi_write) = false /\
    existsb is_WritesDone (finish_from after_client_write) = false.
Proof.
  intros w operation operation' tag req flags ok_ finish_from last
    after_writes_done after_bidi_write after_client_write.
  assert (Hfrom : forall x,
             finish_from x =
             if writes_done_ (rpc x)
             then [Set_finished; Finish (self operation' 1)]
             else [WritesDone (self operation' 0)]).
  { intros x; apply history_app_new, finish_initiate_world. }
  assert (H1 : writes_done_ (rpc after_writes_done) = true)
    by (destruct_world w; reflexivity).
  assert (H2 : writes_done_ (rpc after_bidi_write) = true)
    by (destruct_world w; reflexivity).
  assert (H3 : writes_done_ (rpc after_client_write) = true)
    by (destruct_world w; reflexivity).
  rewrite !Hfrom, H1, H2, H3.
  split_all; try reflexivity.
  apply finish_initiate_world.
Qed.

(** ** What a failed step reports *)

(** X9: when a server-streaming read or a read-initial-metadata fails,
    the handler runs after the Finish of the automatic finish and is
    given false, whatever the final status of the call.  When a
    client-streaming write fails, or carries the last message, the handler
    likewise runs after the Finish, and is given whether the final status
    of the call is OK; the outcomes delivered for the write and for the
    Finish are not looked at. *)
Theorem failed_step_reports :
  forall (w : World) (operation : nat) (final : Status) (req : Message)
         (flags : Z) (ok_write ok_finish : bool),
    let n := outstanding_work_ (grpc_context w) in
    let finish_of k :=
      [Set_finished; Call_work_started; Fetch_add n; Finish (operation, k)] in
    let read_failed :=
      exec (ReadServerStreamingSenderImplementation.done_0 operation false ;;
            take_Finish_event (self operation 1) final ;;
            ReadServerStreamingSenderImplementation.done_1
              operation ok_finish) w in
    let metadata_failed :=
      exec (ReadInitialMetadataSenderImplementation.done_0 operation false ;;
            take_Finish_event (self operation 1) final ;;
            ReadInitialMetadataSenderImplementation.done_1
              operation ok_finish) w in
    let write_failed :=
      exec (WriteClientStreamingSenderImplementation.done_0 operation false ;;
            take_Finish_event (self operation 2) final ;;
            WriteClientStreamingSenderImplementation.done_2
              operation ok_finish) w in
    let last_write :=
      exec (WriteClientStreamingSenderImplementation.initiate operation req
              (mkWriteOptions flags true) ;;
            take_event (self operation 1) ;;
            WriteClientStreamingSenderImplementation.done_1
              operation ok_write ;;
            take_Finish_event (self operation 2) final ;;
            WriteClientStreamingSenderImplementation.done_2
              operation ok_finish) w in
    new_actions w read_failed =
      finish_of 1%nat ++ [On_done (Out_bool false)] /\
    new_actions w metadata_failed =
      finish_of 1%nat ++ [On_done (Out_bool false)] /\
    new_actions w write_failed =
      finish_of 2%nat ++ [On_done (Out_bool (Status_ok final))] /\
    new_actions w last_write =
      [Set_writes_done;
       Write req (mkWriteOptions flags true) (operation, 1%nat)] ++
      finish_of 2%nat ++ [On_done (Out_bool (Status_ok final))] /\
    rpc read_failed = mkRPC true (writes_done_ (rpc w)) final /\
    rpc write_failed = mkRPC true (writes_done_ (rpc w)) final /\
    rpc last_write = mkRPC true true final.
Proof.
  intros w operation final req flags ok_write ok_finish n finish_of
    read_failed metadata_failed write_failed last_write.
  subst n finish_of read_failed metadata_failed write_failed last_write.
  unfold WriteClientStreamingSenderImplementation.initiate, is_last_message.
  destruct_world w; destruct r as [fin wd st].
  run_sender_step; split_all; reflexivity.
Qed.
